(** * BlackRoad Quality Control: the persistence layer of [quality_control.py]

    A shallow embedding of [QualityControlDB] (the SQLite-backed checklist
    and defect store) together with the properties of its operations.

    Modelling choices, all taken from the source:
    - the database file is a value of type [QualityControlDB]: two tables,
      each a list of rows in rowid order plus the [sqlite_sequence] counter
      that [AUTOINCREMENT] maintains;
    - every method opens a connection, runs its statements and commits, so a
      method is a function from the database (and its arguments) to the new
      database and the returned value;
    - [datetime.now().isoformat()] is the reading [now] of the wall clock,
      passed to the methods that take one;
    - TEXT values are byte strings, compared as SQLite's BINARY collation
      does (bytewise, a proper prefix first);
    - an id argument is a Python int: one outside the signed 64-bit range
      makes [execute] raise [OverflowError] before the statement runs, so a
      method that binds an id gives its caller a value or that exception;
    - storage faults (unwritable file, rowid exhaustion) are fatal errors of
      the engine and are outside the model. *)

From Stdlib Require Import ZArith String List Sorted Permutation Lia DecimalString.
From stdpp Require Import base list gmap strings.

Open Scope Z_scope.
Open Scope string_scope.

(** ** Data model *)

(** The [ChecklistItem] dataclass. *)
Module ChecklistItem.
Record t := mk {
  id : option Z;
  title : string;
  category : string;
  severity : string;
  status : string;
  notes : string;
  created_at : string;
  updated_at : string
}.
End ChecklistItem.

(** The [Defect] dataclass. *)
Module Defect.
Record t := mk {
  id : option Z;
  title : string;
  description : string;
  severity : string;
  component : string;
  status : string;
  assignee : string;
  created_at : string;
  resolved_at : option string
}.
End Defect.

(** A row of table [checklist_items]; [id] is the INTEGER PRIMARY KEY. *)
Module ChecklistRow.
Record t := mk {
  id : Z;
  title : string;
  category : string;
  severity : string;
  status : string;
  notes : string;
  created_at : string;
  updated_at : string
}.
End ChecklistRow.

(** A row of table [defects]; [resolved_at] is NULL until resolved. *)
Module DefectRow.
Record t := mk {
  id : Z;
  title : string;
  description : string;
  severity : string;
  component : string;
  status : string;
  assignee : string;
  created_at : string;
  resolved_at : option string
}.
End DefectRow.

(** A table: its rows in rowid order and its [sqlite_sequence] entry. *)
Record table (R : Type) := Table {
  rows : list R;
  seq : Z
}.
Arguments Table {R} _ _.
Arguments rows {R} _.
Arguments seq {R} _.

Record QualityControlDB := DB {
  checklist_items : table ChecklistRow.t;
  defects : table DefectRow.t
}.

(** ** Schema initialiser *)

Definition empty_table {R} : table R := Table [] 0.

Definition empty_db : QualityControlDB := DB empty_table empty_table.

(** [_init_db]: CREATE TABLE IF NOT EXISTS on a file that may already hold
    the tables ([None] is a fresh file). *)
Definition _init_db (file : option QualityControlDB) : QualityControlDB :=
  match file with
  | Some db => db
  | None => empty_db
  end.

(** ** AUTOINCREMENT *)

Definition max_rowid {R} (rid : R -> Z) (rs : list R) : Z :=
  foldr (fun r m => Z.max (rid r) m) 0 rs.

(** The rowid of the next INSERT: one more than the largest rowid the table
    has ever held. *)
Definition next_rowid {R} (rid : R -> Z) (t : table R) : Z :=
  Z.max (seq t) (max_rowid rid (rows t)) + 1.

Definition insert_row {R} (rid : R -> Z) (mk : Z -> R) (t : table R) : table R * Z :=
  let n := next_rowid rid t in
  (Table (rows t ++ [mk n]) n, n).

(** ** Checklist and defect stores *)

(** The row an INSERT into [checklist_items] writes: the id is the
    table's, the other columns are the item's fields ([item.id] is not
    among the inserted columns). *)
Definition checklist_row (rid : Z) (item : ChecklistItem.t) : ChecklistRow.t :=
  ChecklistRow.mk rid
    (ChecklistItem.title item) (ChecklistItem.category item)
    (ChecklistItem.severity item) (ChecklistItem.status item)
    (ChecklistItem.notes item) (ChecklistItem.created_at item)
    (ChecklistItem.updated_at item).

Definition add_checklist_item (db : QualityControlDB) (item : ChecklistItem.t)
  : QualityControlDB * Z :=
  let '(t, rid) :=
    insert_row ChecklistRow.id (fun n => checklist_row n item) (checklist_items db) in
  (DB t (defects db), rid).

(** The row an INSERT into [defects] writes. *)
Definition defect_row (rid : Z) (defect : Defect.t) : DefectRow.t :=
  DefectRow.mk rid
    (Defect.title defect) (Defect.description defect)
    (Defect.severity defect) (Defect.component defect)
    (Defect.status defect) (Defect.assignee defect)
    (Defect.created_at defect) (Defect.resolved_at defect).

Definition add_defect (db : QualityControlDB) (defect : Defect.t)
  : QualityControlDB * Z :=
  let '(t, rid) :=
    insert_row DefectRow.id (fun n => defect_row n defect) (defects db) in
  (DB (checklist_items db) t, rid).

(** ** Binding an id *)

(** The exception a call can raise apart from storage faults. *)
Inductive exn :=
| OverflowError.

(** What a call hands to its caller: the value it returns or the exception
    it raises. *)
Inductive outcome (A : Type) :=
| Returned (a : A)
| Raised (e : exn).
Arguments Returned {A} _.
Arguments Raised {A} _.

(** [sqlite3] binds a Python int as a signed 64-bit INTEGER; for an int
    outside that range [execute] raises [OverflowError] before the
    statement runs, and the connection is left as it was. *)
Definition int64 (n : Z) : bool :=
  ((- 2 ^ 63 <=? n) && (n <=? 2 ^ 63 - 1))%Z.
Arguments int64 : simpl never.

(** UPDATE ... WHERE id=?: the rows after the statement and the value of
    [changes()], the number of rows the WHERE clause selected. *)
Definition update_where {R} (rid : R -> Z) (k : Z) (set : R -> R) (rs : list R)
  : list R * nat :=
  (map (fun r => if Z.eqb (rid r) k then set r else r) rs,
   length (List.filter (fun r => Z.eqb (rid r) k) rs)).

Definition set_checklist_status (status notes now : string) (r : ChecklistRow.t)
  : ChecklistRow.t :=
  ChecklistRow.mk (ChecklistRow.id r) (ChecklistRow.title r)
    (ChecklistRow.category r) (ChecklistRow.severity r)
    status notes (ChecklistRow.created_at r) now.

Definition update_checklist_status (db : QualityControlDB) (now : string)
  (item_id : Z) (status notes : string) : QualityControlDB * outcome bool :=
  if int64 item_id then
    let '(rs, changes) :=
      update_where ChecklistRow.id item_id
        (set_checklist_status status notes now) (rows (checklist_items db)) in
    (DB (Table rs (seq (checklist_items db))) (defects db),
     Returned (Nat.ltb 0 changes))
  else (db, Raised OverflowError).

Definition set_resolved (now : string) (r : DefectRow.t) : DefectRow.t :=
  DefectRow.mk (DefectRow.id r) (DefectRow.title r) (DefectRow.description r)
    (DefectRow.severity r) (DefectRow.component r)
    "resolved" (DefectRow.assignee r) (DefectRow.created_at r) (Some now).

Definition resolve_defect (db : QualityControlDB) (now : string) (defect_id : Z)
  : QualityControlDB * outcome bool :=
  if int64 defect_id then
    let '(rs, changes) :=
      update_where DefectRow.id defect_id (set_resolved now) (rows (defects db)) in
    (DB (checklist_items db) (Table rs (seq (defects db))),
     Returned (Nat.ltb 0 changes))
  else (db, Raised OverflowError).

(** ** Listings *)

(** ORDER BY key DESC over TEXT: rows with the larger key first, rows with
    equal keys in scan (rowid) order. *)
Fixpoint insert_desc {R} (key : R -> string) (x : R) (l : list R) : list R :=
  match l with
  | [] => [x]
  | y :: l' =>
      if String.ltb (key x) (key y) then y :: insert_desc key x l'
      else x :: l
  end.

Definition order_by_desc {R} (key : R -> string) (l : list R) : list R :=
  foldr (insert_desc key) [] l.

(** Python truthiness of an [Optional[str]] argument: [None] and the empty
    string are falsy. *)
Definition truthy (arg : option string) : bool :=
  match arg with
  | Some s => negb (String.eqb s "")
  | None => false
  end.

(** The SELECT of a listing: the WHERE clause is added only when the
    argument is truthy. *)
Definition select_where {R} (col : R -> string) (arg : option string) (rs : list R)
  : list R :=
  match arg with
  | Some v => if truthy arg then List.filter (fun r => String.eqb (col r) v) rs else rs
  | None => rs
  end.

Definition list_checklist_items (db : QualityControlDB) (category : option string)
  : list ChecklistRow.t :=
  order_by_desc ChecklistRow.created_at
    (select_where ChecklistRow.category category (rows (checklist_items db))).

Definition list_defects (db : QualityControlDB) (status : option string)
  : list DefectRow.t :=
  order_by_desc DefectRow.created_at
    (select_where DefectRow.status status (rows (defects db))).

(** ** Aggregator *)

(** SELECT key, COUNT( * ) ... GROUP BY key, collected into a dict. *)
Definition group_count {R} (key : R -> string) (rs : list R) : gmap string nat :=
  foldr (fun r m => <[key r := S (default 0%nat (m !! key r))]> m) ∅ rs.

Record stats := Stats {
  checklist : gmap string nat;
  open_defects_by_severity : gmap string nat
}.

Definition get_stats (db : QualityControlDB) : stats :=
  Stats
    (group_count ChecklistRow.status (rows (checklist_items db)))
    (group_count DefectRow.severity
       (List.filter (fun r => String.eqb (DefectRow.status r) "open")
          (rows (defects db)))).

(** ** Exporter *)

(** The values [json.dumps] is given: None, int, str, list and dict. *)
#[warnings="-register-all"]
Inductive value :=
| VNone
| VInt (z : Z)
| VStr (s : string)
| VList (l : list value)
| VDict (d : gmap string value).

Definition dict (kvs : list (string * value)) : value := VDict (list_to_map kvs).

Definition optional_str (o : option string) : value :=
  match o with
  | Some s => VStr s
  | None => VNone
  end.

(** [dict(r)] for a row of [checklist_items]. *)
Definition checklist_row_dict (r : ChecklistRow.t) : value :=
  dict [("id", VInt (ChecklistRow.id r));
        ("title", VStr (ChecklistRow.title r));
        ("category", VStr (ChecklistRow.category r));
        ("severity", VStr (ChecklistRow.severity r));
        ("status", VStr (ChecklistRow.status r));
        ("notes", VStr (ChecklistRow.notes r));
        ("created_at", VStr (ChecklistRow.created_at r));
        ("updated_at", VStr (ChecklistRow.updated_at r))].

(** [dict(r)] for a row of [defects]. *)
Definition defect_row_dict (r : DefectRow.t) : value :=
  dict [("id", VInt (DefectRow.id r));
        ("title", VStr (DefectRow.title r));
        ("description", VStr (DefectRow.description r));
        ("severity", VStr (DefectRow.severity r));
        ("component", VStr (DefectRow.component r));
        ("status", VStr (DefectRow.status r));
        ("assignee", VStr (DefectRow.assignee r));
        ("created_at", VStr (DefectRow.created_at r));
        ("resolved_at", optional_str (DefectRow.resolved_at r))].

Definition counts_dict (m : gmap string nat) : value :=
  VDict ((fun n => VInt (Z.of_nat n)) <$> m).

Definition stats_dict (s : stats) : value :=
  dict [("checklist", counts_dict (checklist s));
        ("open_defects_by_severity", counts_dict (open_defects_by_severity s))].

(** The document [export_json] passes to [json.dumps]; the text layout
    ([indent=2]) is presentation. *)
Definition export_json (db : QualityControlDB) (now : string) : value :=
  dict [("checklist_items", VList (checklist_row_dict <$> list_checklist_items db None));
        ("defects", VList (defect_row_dict <$> list_defects db None));
        ("stats", stats_dict (get_stats db));
        ("exported_at", VStr now)].

(** *** Reading an exported document back *)

Definition keys (v : value) : gset string :=
  match v with
  | VDict d => dom d
  | _ => ∅
  end.

Definition field (k : string) (v : value) : option value :=
  match v with
  | VDict d => d !! k
  | _ => None
  end.

Definition as_list (v : value) : option (list value) :=
  match v with
  | VList l => Some l
  | _ => None
  end.

Definition as_str (v : value) : option string :=
  match v with
  | VStr s => Some s
  | _ => None
  end.

Definition str_field (k : string) (v : value) : option string :=
  field k v ≫= as_str.

Definition array_field (k : string) (v : value) : option (list value) :=
  field k v ≫= as_list.

(** A counter over a list of keys, one pass from the first entry on:
    [counts[s] = counts.get(s, 0) + 1]. *)
Definition tally (l : list string) : gmap string nat :=
  fold_left (fun m s => <[s := S (default 0%nat (m !! s))]> m) l ∅.

(** Counts by the text field [k] over the entries of an exported array. *)
Definition recount (k : string) (entries : list value) : option (gmap string nat) :=
  tally <$> mapM (str_field k) entries.

Definition is_open (entry : value) : bool :=
  match str_field "status" entry with
  | Some s => String.eqb s "open"
  | None => false
  end.

(** The stats recomputed from the [checklist_items] and [defects] arrays of
    a document: all checklist entries by status, the open defects by
    severity. *)
Definition recount_stats (doc : value) : option stats :=
  items ← array_field "checklist_items" doc;
  dfs ← array_field "defects" doc;
  cl ← recount "status" items;
  df ← recount "severity" (List.filter is_open dfs);
  Some (Stats cl df).

(** A count read from a document: an int that is not negative. *)
Definition as_count (v : value) : option nat :=
  match v with
  | VInt z => if (0 <=? z)%Z then Some (Z.to_nat z) else None
  | _ => None
  end.

(** A dict of counts read from a document: every value has to be a
    count. *)
Definition counts_of_dict (v : value) : option (gmap string nat) :=
  match v with
  | VDict d =>
      let m := omap as_count d in
      if Nat.eqb (size m) (size d) then Some m else None
  | _ => None
  end.

(** The two maps read from the [stats] field of a document. *)
Definition exported_stats (doc : value) : option stats :=
  s ← field "stats" doc;
  cl ← field "checklist" s ≫= counts_of_dict;
  df ← field "open_defects_by_severity" s ≫= counts_of_dict;
  Some (Stats cl df).

(** ** Sequences of calls *)

(** The writing calls, made one after another on one store by a caller
    that records what each call returned or raised and goes on. *)
Inductive op :=
| AddItem (item : ChecklistItem.t)
| AddDefect (defect : Defect.t)
| UpdateStatus (now : string) (item_id : Z) (status notes : string)
| ResolveDefect (now : string) (defect_id : Z).

Inductive result :=
| ItemId (rid : Z)
| DefectId (rid : Z)
| Found (b : bool)
| Raises (e : exn).

Definition result_of (o : outcome bool) : result :=
  match o with
  | Returned b => Found b
  | Raised e => Raises e
  end.

Definition step (db : QualityControlDB) (o : op) : QualityControlDB * result :=
  match o with
  | AddItem item => let '(db', rid) := add_checklist_item db item in (db', ItemId rid)
  | AddDefect defect => let '(db', rid) := add_defect db defect in (db', DefectId rid)
  | UpdateStatus now item_id status notes =>
      let '(db', o) := update_checklist_status db now item_id status notes in (db', result_of o)
  | ResolveDefect now defect_id =>
      let '(db', o) := resolve_defect db now defect_id in (db', result_of o)
  end.

Fixpoint run (db : QualityControlDB) (ops : list op) : QualityControlDB * list result :=
  match ops with
  | [] => (db, [])
  | o :: ops' =>
      let '(db1, r) := step db o in
      let '(db2, rs) := run db1 ops' in
      (db2, r :: rs)
  end.

Definition item_ids (rs : list result) : list Z :=
  omap (fun r => match r with ItemId n => Some n | _ => None end) rs.

Definition defect_ids (rs : list result) : list Z :=
  omap (fun r => match r with DefectId n => Some n | _ => None end) rs.

(** ** The order on TEXT values *)

(** [ts_lt a b]: the text [a] sorts strictly before [b]; on ISO-8601
    timestamps, [a] is the earlier one. *)
Definition ts_lt (a b : string) : Prop := String.ltb a b = true.

(** [ts_le a b]: [b] does not sort strictly before [a]. *)
Definition ts_le (a b : string) : Prop := String.ltb b a = false.

(** [x] is listed before [y]: the key of [y] is not the larger one. *)
Definition desc {R} (key : R -> string) (x y : R) : Prop :=
  ts_le (key y) (key x).

(** ** Counting *)

Definition count_where {R} (p : R -> bool) (rs : list R) : nat :=
  length (List.filter p rs).

(** A group exists only for a key that occurs: COUNT is never zero. *)
Definition bucket (n : nat) : option nat :=
  match n with
  | O => None
  | S _ => Some n
  end.

(** ** Identifiers and primary keys *)

Definition checklist_ids (db : QualityControlDB) : list Z :=
  map ChecklistRow.id (rows (checklist_items db)).

Definition defect_row_ids (db : QualityControlDB) : list Z :=
  map DefectRow.id (rows (defects db)).

(** PRIMARY KEY: no two rows of a table share an id. *)
Definition primary_keys_unique (db : QualityControlDB) : Prop :=
  NoDup (checklist_ids db) /\ NoDup (defect_row_ids db).

(** ROWID: every stored id is a signed 64-bit integer. *)
Definition rowids_are_int64 (db : QualityControlDB) : Prop :=
  Forall (fun n => int64 n = true) (checklist_ids db) /\
  Forall (fun n => int64 n = true) (defect_row_ids db).

(** The largest rowid a table has ever held. *)
Definition high_water {R} (rid : R -> Z) (t : table R) : Z :=
  Z.max (seq t) (max_rowid rid (rows t)).

Definition hw_items (db : QualityControlDB) : Z :=
  high_water ChecklistRow.id (checklist_items db).

Definition hw_defects (db : QualityControlDB) : Z :=
  high_water DefectRow.id (defects db).

(** ** Columns a write keeps *)

(** The columns of a checklist row that a status update does not write. *)
Definition same_item (r r' : ChecklistRow.t) : Prop :=
  ChecklistRow.id r' = ChecklistRow.id r /\
  ChecklistRow.title r' = ChecklistRow.title r /\
  ChecklistRow.category r' = ChecklistRow.category r /\
  ChecklistRow.severity r' = ChecklistRow.severity r /\
  ChecklistRow.created_at r' = ChecklistRow.created_at r.

(** The columns of a defect row that a resolution does not write. *)
Definition same_defect (r r' : DefectRow.t) : Prop :=
  DefectRow.id r' = DefectRow.id r /\
  DefectRow.title r' = DefectRow.title r /\
  DefectRow.description r' = DefectRow.description r /\
  DefectRow.severity r' = DefectRow.severity r /\
  DefectRow.component r' = DefectRow.component r /\
  DefectRow.assignee r' = DefectRow.assignee r /\
  DefectRow.created_at r' = DefectRow.created_at r.

(** ** Decoding an exported row *)

Definition as_int (v : value) : option Z :=
  match v with
  | VInt z => Some z
  | _ => None
  end.

Definition int_field (k : string) (v : value) : option Z :=
  field k v ≫= as_int.

Definition as_optional_str (v : value) : option (option string) :=
  match v with
  | VStr s => Some (Some s)
  | VNone => Some None
  | _ => None
  end.

(** Reading a checklist row back from its dict. *)
Definition checklist_row_of_dict (v : value) : option ChecklistRow.t :=
  rid ← int_field "id" v;
  title ← str_field "title" v;
  category ← str_field "category" v;
  severity ← str_field "severity" v;
  status ← str_field "status" v;
  notes ← str_field "notes" v;
  created_at ← str_field "created_at" v;
  updated_at ← str_field "updated_at" v;
  Some (ChecklistRow.mk rid title category severity status notes created_at updated_at).

(** Reading a defect row back from its dict. *)
Definition defect_row_of_dict (v : value) : option DefectRow.t :=
  rid ← int_field "id" v;
  title ← str_field "title" v;
  description ← str_field "description" v;
  severity ← str_field "severity" v;
  component ← str_field "component" v;
  status ← str_field "status" v;
  assignee ← str_field "assignee" v;
  created_at ← str_field "created_at" v;
  resolved_at ← field "resolved_at" v ≫= as_optional_str;
  Some (DefectRow.mk rid title description severity component status assignee
          created_at resolved_at).

(** ** Presentation and command layer *)

(** The escape character [\033] that starts an ANSI colour code. *)
Definition ESC : string := String (Ascii.ascii_of_nat 27) "".

Definition GREEN : string := ESC ++ "[0;32m".
Definition RED : string := ESC ++ "[0;31m".
Definition YELLOW : string := ESC ++ "[1;33m".
Definition CYAN : string := ESC ++ "[0;36m".
Definition BLUE : string := ESC ++ "[0;34m".
Definition BOLD : string := ESC ++ "[1m".
Definition NC : string := ESC ++ "[0m".

(** [_sev]: the colour of a severity, [NC] for a key the dict lacks. *)
Definition _sev (s : string) : string :=
  default NC
    ((list_to_map [("critical", RED); ("high", ESC ++ "[0;91m");
                   ("medium", YELLOW); ("low", GREEN)] : gmap string string) !! s).

(** [_st]: the colour of a status, [NC] for a key the dict lacks. *)
Definition _st (s : string) : string :=
  default NC
    ((list_to_map [("passed", GREEN); ("failed", RED); ("open", RED);
                   ("resolved", GREEN); ("closed", CYAN); ("pending", YELLOW);
                   ("in_progress", BLUE)] : gmap string string) !! s).

(** The [choices] of [--severity] in [build_parser]. *)
Definition severity_choices : list string := ["low"; "medium"; "high"; "critical"].

(** [sum(d.values())] for a dict of counts. *)
Definition sum_values (m : gmap string nat) : nat :=
  map_fold (fun _ n acc => (n + acc)%nat) 0%nat m.

(** The [total] that [cmd_status] prints as "Total open defects". *)
Definition cmd_status_total (db : QualityControlDB) : nat :=
  sum_values (open_defects_by_severity (get_stats db)).

(** [str(n)] for an int. *)
Definition str (n : Z) : string := NilZero.string_of_int (Z.to_int n).

(** The namespace [cmd_add] reads: the arguments of the [add] command. *)
Module AddArgs.
Record t := mk {
  type : string;
  title : string;
  category : string;
  severity : string;
  description : string;
  component : string;
  assignee : string
}.
End AddArgs.

(** [cmd_add]: the database after the command and the line it prints.  The
    dataclass defaults are filled in when the object is built: status
    "pending" and empty notes for an item, status "open", no [resolved_at]
    for a defect.  [now1] and [now2] are the clock readings of the
    [created_at] and [updated_at] default factories, in field order; a
    defect takes only the first. *)
Definition cmd_add (args : AddArgs.t) (db : QualityControlDB) (now1 now2 : string)
  : QualityControlDB * string :=
  if String.eqb (AddArgs.type args) "checklist" then
    let '(db', iid) :=
      add_checklist_item db
        (ChecklistItem.mk None (AddArgs.title args) (AddArgs.category args)
           (AddArgs.severity args) "pending" "" now1 now2) in
    (db', GREEN ++ "Added checklist item #" ++ str iid ++ ": "
            ++ AddArgs.title args ++ NC)
  else
    let '(db', did) :=
      add_defect db
        (Defect.mk None (AddArgs.title args) (AddArgs.description args)
           (AddArgs.severity args) (AddArgs.component args) "open"
           (AddArgs.assignee args) now1 None) in
    (db', RED ++ "Logged defect #" ++ str did ++ ": " ++ AddArgs.title args ++ NC).

(** The row a write leaves in place of [r]: rewritten when the id is the
    one of the WHERE clause, kept otherwise. *)
Definition rewritten {R} (rid : R -> Z) (k : Z) (set : R -> R) (r : R) : R :=
  if Z.eqb (rid r) k then set r else r.

(** The WHERE clause of the open-defect count. *)
Definition is_open_row (r : DefectRow.t) : bool :=
  String.eqb (DefectRow.status r) "open".

(** * Properties *)

(** ** The order on TEXT values *)

Lemma ltb_compare (a b : string) : String.ltb a b = true <-> String.compare a b = Lt.
Proof. unfold String.ltb. destruct (String.compare a b); split; congruence. Qed.

Lemma compare_refl (a : string) : String.compare a a = Eq.
Proof.
  induction a as [|c a IH]; simpl; [reflexivity|].
  unfold Ascii.compare. rewrite N.compare_refl. exact IH.
Qed.

Lemma compare_lt_trans (a b c : string) :
  String.compare a b = Lt -> String.compare b c = Lt -> String.compare a c = Lt.
Proof.
  revert b c. induction a as [|x a IH]; intros [|y b] [|z c]; simpl; try congruence.
  unfold Ascii.compare.
  destruct (N.compare_spec (Ascii.N_of_ascii x) (Ascii.N_of_ascii y)) as [Hxy|Hxy|Hxy];
    try congruence;
    destruct (N.compare_spec (Ascii.N_of_ascii y) (Ascii.N_of_ascii z)) as [Hyz|Hyz|Hyz];
    try congruence; intros H1 H2.
  - rewrite Hxy, Hyz, N.compare_refl. eauto.
  - rewrite Hxy. apply N.compare_lt_iff in Hyz. rewrite Hyz. reflexivity.
  - rewrite <- Hyz. apply N.compare_lt_iff in Hxy. rewrite Hxy. reflexivity.
  - assert (Hxz : (Ascii.N_of_ascii x < Ascii.N_of_ascii z)%N) by lia.
    apply N.compare_lt_iff in Hxz. rewrite Hxz. reflexivity.
Qed.

Lemma ts_lt_irrefl (a : string) : ~ ts_lt a a.
Proof. unfold ts_lt. rewrite ltb_compare, compare_refl. congruence. Qed.

Lemma ts_lt_trans (a b c : string) : ts_lt a b -> ts_lt b c -> ts_lt a c.
Proof. unfold ts_lt. rewrite !ltb_compare. apply compare_lt_trans. Qed.

Lemma ts_lt_le (a b : string) : ts_lt a b -> ts_le a b.
Proof.
  unfold ts_lt, ts_le. intros H.
  destruct (String.ltb b a) eqn:E; [|reflexivity].
  exfalso. apply (ts_lt_irrefl a). exact (ts_lt_trans _ _ _ H E).
Qed.

Lemma ts_le_cases (a b : string) : ts_le a b -> a = b \/ ts_lt a b.
Proof.
  unfold ts_le, ts_lt, String.ltb. rewrite (String.compare_antisym b a).
  destruct (String.compare a b) eqn:E; simpl; intros H; try congruence.
  - left. now apply String.compare_eq_iff.
  - right. reflexivity.
Qed.

Lemma ts_lt_le_trans (a b c : string) : ts_lt a b -> ts_le b c -> ts_lt a c.
Proof.
  intros Hab Hbc. destruct (ts_le_cases _ _ Hbc) as [->|Hlt]; [exact Hab|].
  exact (ts_lt_trans _ _ _ Hab Hlt).
Qed.

Lemma ts_le_trans (a b c : string) : ts_le a b -> ts_le b c -> ts_le a c.
Proof.
  intros Hab Hbc. destruct (ts_le_cases _ _ Hab) as [->|Hlt]; [exact Hbc|].
  apply ts_lt_le. exact (ts_lt_le_trans _ _ _ Hlt Hbc).
Qed.

(** ** ORDER BY ... DESC *)

Section order_by.
Context {R : Type} (key : R -> string).

Lemma desc_trans (x y z : R) : desc key x y -> desc key y z -> desc key x z.
Proof. unfold desc. intros Hxy Hyz. exact (ts_le_trans _ _ _ Hyz Hxy). Qed.

Lemma insert_desc_perm (x : R) (l : list R) : Permutation (insert_desc key x l) (x :: l).
Proof.
  induction l as [|y l IH]; simpl; [reflexivity|].
  destruct (String.ltb (key x) (key y)); [|reflexivity].
  rewrite IH. apply perm_swap.
Qed.

Lemma order_by_desc_perm (l : list R) : Permutation (order_by_desc key l) l.
Proof.
  induction l as [|x l IH]; simpl; [reflexivity|].
  rewrite insert_desc_perm. now constructor.
Qed.

Lemma insert_desc_sorted (x : R) (l : list R) :
  StronglySorted (desc key) l -> StronglySorted (desc key) (insert_desc key x l).
Proof.
  induction 1 as [|y l Hs IH Hall]; simpl.
  - repeat constructor.
  - destruct (String.ltb (key x) (key y)) eqn:E.
    + constructor; [exact IH|].
      rewrite (insert_desc_perm x l). constructor; [|exact Hall].
      apply ts_lt_le. exact E.
    + constructor; [now constructor|].
      constructor; [exact E|].
      eapply List.Forall_impl; [|exact Hall].
      intros z Hz. eapply desc_trans; [exact E|exact Hz].
Qed.

Lemma order_by_desc_sorted (l : list R) : StronglySorted (desc key) (order_by_desc key l).
Proof.
  induction l as [|x l IH]; simpl; [constructor|].
  now apply insert_desc_sorted.
Qed.

Lemma insert_desc_front (x : R) (l : list R) :
  Forall (desc key x) l -> insert_desc key x l = x :: l.
Proof.
  destruct 1 as [|y l Hy _]; simpl; [reflexivity|].
  unfold desc, ts_le in Hy. now rewrite Hy.
Qed.

(** A WHERE clause commutes with the ordering: filtering the ordered rows
    gives the ordered filtered rows. *)
Lemma filter_insert_desc (p : R -> bool) (x : R) (l : list R) :
  StronglySorted (desc key) l ->
  List.filter p (insert_desc key x l) =
  if p x then insert_desc key x (List.filter p l) else List.filter p l.
Proof.
  induction 1 as [|y l Hs IH Hall]; simpl.
  - destruct (p x); reflexivity.
  - destruct (String.ltb (key x) (key y)) eqn:E; simpl.
    + rewrite IH. destruct (p y), (p x); simpl; try reflexivity.
      now rewrite E.
    + destruct (p x) eqn:Px; [|reflexivity].
      symmetry. apply insert_desc_front.
      assert (Hall' : Forall (desc key x) (y :: l)).
      { constructor; [exact E|].
        eapply List.Forall_impl; [|exact Hall].
        intros z Hz. eapply desc_trans; [exact E|exact Hz]. }
      rewrite List.Forall_forall in Hall' |- *.
      intros z Hz. apply Hall'.
      change (In z (List.filter p (y :: l))) in Hz.
      apply List.filter_In in Hz. tauto.
Qed.

Lemma filter_order_by_desc (p : R -> bool) (l : list R) :
  List.filter p (order_by_desc key l) = order_by_desc key (List.filter p l).
Proof.
  induction l as [|x l IH]; simpl; [reflexivity|].
  rewrite filter_insert_desc by apply order_by_desc_sorted.
  rewrite IH. destruct (p x); reflexivity.
Qed.

End order_by.

(** ** Grouped counts *)

Lemma group_count_lookup {R} (key : R -> string) (rs : list R) (k : string) :
  group_count key rs !! k = bucket (count_where (fun r => String.eqb (key r) k) rs).
Proof.
  unfold count_where. induction rs as [|r rs IH]; simpl; [apply lookup_empty|].
  rewrite lookup_insert. destruct (String.eqb_spec (key r) k) as [->|Hne].
  - rewrite decide_True by reflexivity. rewrite IH. simpl.
    now destruct (length _).
  - rewrite decide_False by exact Hne. exact IH.
Qed.

Lemma count_where_perm {R} (p : R -> bool) (l l' : list R) :
  Permutation l l' -> count_where p l = count_where p l'.
Proof.
  unfold count_where. induction 1 as [|x l l' _ IH|x y l|l l' l'' _ IH1 _ IH2]; simpl.
  - reflexivity.
  - destruct (p x); simpl; congruence.
  - destruct (p x), (p y); reflexivity.
  - congruence.
Qed.

Lemma group_count_perm {R} (key : R -> string) (l l' : list R) :
  Permutation l l' -> group_count key l = group_count key l'.
Proof.
  intros H. apply map_eq. intros k.
  rewrite !group_count_lookup. f_equal. now apply count_where_perm.
Qed.

Lemma count_where_fmap {R} (key : R -> string) (k : string) (l : list R) :
  count_where (fun s => String.eqb s k) (key <$> l) =
  count_where (fun r => String.eqb (key r) k) l.
Proof.
  unfold count_where. induction l as [|r l IH]; [reflexivity|].
  rewrite fmap_cons. simpl. destruct (String.eqb (key r) k); simpl; congruence.
Qed.

(** The counter loop, started from any counts [m]. *)
Lemma tally_from (l : list string) (m : gmap string nat) (k : string) :
  fold_left (fun m s => <[s := S (default 0%nat (m !! s))]> m) l m !! k =
  match count_where (fun s => String.eqb s k) l with
  | O => m !! k
  | S n => Some (S n + default 0%nat (m !! k))%nat
  end.
Proof.
  unfold count_where. revert m. induction l as [|s l IH]; intros m; simpl; [reflexivity|].
  rewrite IH, lookup_insert. destruct (String.eqb_spec s k) as [->|Hne].
  - rewrite decide_True by reflexivity. simpl.
    destruct (length _); simpl; f_equal; lia.
  - rewrite decide_False by exact Hne. reflexivity.
Qed.

Lemma tally_lookup (l : list string) (k : string) :
  tally l !! k = bucket (count_where (fun s => String.eqb s k) l).
Proof.
  unfold tally. rewrite tally_from, lookup_empty. simpl.
  destruct (count_where _ l); simpl; [reflexivity|]. f_equal. lia.
Qed.

(** The counter over a column agrees with GROUP BY on that column. *)
Lemma tally_group_count {R} (key : R -> string) (l : list R) :
  tally (key <$> l) = group_count key l.
Proof.
  apply map_eq. intros k.
  now rewrite tally_lookup, group_count_lookup, count_where_fmap.
Qed.

Lemma filter_perm {R} (p : R -> bool) (l l' : list R) :
  Permutation l l' -> Permutation (List.filter p l) (List.filter p l').
Proof.
  induction 1 as [|x l l' _ IH|x y l|l l' l'' _ IH1 _ IH2]; simpl.
  - reflexivity.
  - destruct (p x); [now constructor|exact IH].
  - destruct (p x), (p y); try reflexivity. apply perm_swap.
  - now transitivity (List.filter p l').
Qed.

(** ** UPDATE ... WHERE id=? *)

Section update.
Context {R : Type} (rid : R -> Z) (k : Z) (set : R -> R).

Lemma update_where_miss (rs : list R) :
  ~ In k (map rid rs) -> update_where rid k set rs = (rs, O).
Proof.
  unfold update_where. induction rs as [|r rs IH]; simpl; [reflexivity|].
  intros Hn. destruct (Z.eqb_spec (rid r) k) as [E|E]; [tauto|].
  assert (Hrs : ~ In k (map rid rs)) by tauto.
  specialize (IH Hrs). now inversion IH as [[H1 H2]]; rewrite !H1, ?H2.
Qed.

Lemma update_where_changes (rs : list R) :
  Nat.ltb 0 (snd (update_where rid k set rs)) = true <-> In k (map rid rs).
Proof.
  unfold update_where; simpl. induction rs as [|r rs IH]; simpl.
  - split; [discriminate|tauto].
  - destruct (Z.eqb_spec (rid r) k) as [E|E]; simpl.
    + split; [now left|reflexivity].
    + rewrite IH. tauto.
Qed.

Lemma update_where_lookup (rs : list R) (i : nat) :
  fst (update_where rid k set rs) !! i =
  (fun r => if Z.eqb (rid r) k then set r else r) <$> rs !! i.
Proof. unfold update_where; simpl. apply list_lookup_fmap. Qed.

Lemma update_where_ids (rs : list R) :
  (forall r, rid (set r) = rid r) ->
  map rid (fst (update_where rid k set rs)) = map rid rs.
Proof.
  intros Hset. unfold update_where; simpl. rewrite List.map_map.
  apply List.map_ext. intros r. destruct (Z.eqb (rid r) k); [apply Hset|reflexivity].
Qed.

Lemma update_where_In (rs : list R) (r' : R) :
  In r' (fst (update_where rid k set rs)) ->
  exists r, In r rs /\ r' = if Z.eqb (rid r) k then set r else r.
Proof.
  unfold update_where; simpl. rewrite List.in_map_iff.
  intros (r & <- & Hr). now exists r.
Qed.

End update.

Lemma count_where_filter {R} (p q : R -> bool) (rs : list R) :
  count_where q (List.filter p rs) = count_where (fun r => p r && q r) rs.
Proof.
  unfold count_where. induction rs as [|r rs IH]; simpl; [reflexivity|].
  destruct (p r); simpl; [|exact IH]. destruct (q r); simpl; congruence.
Qed.

(** ** Aggregator *)

(** C1: [get_stats] counts the checklist rows by status over all rows, and
    the defect rows by severity over the rows whose status is exactly
    "open"; a key is present exactly when its count is positive.  After
    three items with statuses pending, pending, passed the checklist map is
    {pending: 2, passed: 1}; after two open defects of severity high and a
    resolved one of severity critical the open map is {high: 2}. *)
Theorem get_stats_grouped_counts :
  (forall db s,
     checklist (get_stats db) !! s =
     bucket (count_where (fun r => String.eqb (ChecklistRow.status r) s)
               (rows (checklist_items db)))) /\
  (forall db sev,
     open_defects_by_severity (get_stats db) !! sev =
     bucket (count_where
               (fun r => String.eqb (DefectRow.status r) "open"
                         && String.eqb (DefectRow.severity r) sev)
               (rows (defects db)))) /\
  (forall i1 i2 i3 d1 d2 d3 now,
     ChecklistItem.status i1 = "pending" ->
     ChecklistItem.status i2 = "pending" ->
     ChecklistItem.status i3 = "passed" ->
     Defect.status d1 = "open" -> Defect.severity d1 = "high" ->
     Defect.status d2 = "open" -> Defect.severity d2 = "high" ->
     Defect.severity d3 = "critical" ->
     let '(db1, _) := add_checklist_item empty_db i1 in
     let '(db2, _) := add_checklist_item db1 i2 in
     let '(db3, _) := add_checklist_item db2 i3 in
     let '(db4, _) := add_defect db3 d1 in
     let '(db5, _) := add_defect db4 d2 in
     let '(db6, id3) := add_defect db5 d3 in
     let '(db7, _) := resolve_defect db6 now id3 in
     checklist (get_stats db3) = {[ "pending" := 2%nat; "passed" := 1%nat ]} /\
     open_defects_by_severity (get_stats db5) = {[ "high" := 2%nat ]} /\
     get_stats db7 = Stats {[ "pending" := 2%nat; "passed" := 1%nat ]} {[ "high" := 2%nat ]}).
Proof.
  split; [|split].
  - intros db s. apply group_count_lookup.
  - intros db sev. unfold get_stats; simpl.
    rewrite group_count_lookup. f_equal. apply count_where_filter.
  - intros [? ? ? ? s1 ? ? ?] [? ? ? ? s2 ? ? ?] [? ? ? ? s3 ? ? ?]
           [? ? ? v1 ? t1 ? ? ?] [? ? ? v2 ? t2 ? ? ?] [? ? ? v3 ? t3 ? ? ?] now.
    simpl. intros -> -> -> -> -> -> -> ->.
    vm_compute. repeat split; reflexivity.
Qed.

Lemma get_stats_grouped_counts_witness :
  let i st := ChecklistItem.mk None "check login" "general" "medium" st ""
                "2026-11-03T09:00:00" "2026-11-03T09:00:00" in
  let d sev := Defect.mk None "crash" "" sev "general" "open" ""
                 "2026-11-03T09:30:00" None in
  let '(db1, _) := add_checklist_item empty_db (i "pending") in
  let '(db2, _) := add_checklist_item db1 (i "pending") in
  let '(db3, _) := add_checklist_item db2 (i "passed") in
  let '(db4, _) := add_defect db3 (d "high") in
  let '(db5, _) := add_defect db4 (d "high") in
  let '(db6, id3) := add_defect db5 (d "critical") in
  let '(db7, _) := resolve_defect db6 "2026-11-03T10:00:00" id3 in
  checklist (get_stats db3) = {[ "pending" := 2%nat; "passed" := 1%nat ]} /\
  open_defects_by_severity (get_stats db5) = {[ "high" := 2%nat ]} /\
  get_stats db7 = Stats {[ "pending" := 2%nat; "passed" := 1%nat ]} {[ "high" := 2%nat ]}.
Proof.
  intros i d.
  exact (proj2 (proj2 get_stats_grouped_counts)
           (i "pending") (i "pending") (i "passed") (d "high") (d "high") (d "critical")
           "2026-11-03T10:00:00"
           eq_refl eq_refl eq_refl eq_refl eq_refl eq_refl eq_refl eq_refl).
Defined.

(** ** Checklist store: status updates *)

Lemma In_list_checklist_items (db : QualityControlDB) (r : ChecklistRow.t) :
  In r (list_checklist_items db None) <-> In r (rows (checklist_items db)).
Proof.
  unfold list_checklist_items; simpl.
  split; apply Permutation_in;
    [|symmetry]; apply order_by_desc_perm.
Qed.

Lemma rowids_are_int64_check (db : QualityControlDB) :
  forallb int64 (checklist_ids db) && forallb int64 (defect_row_ids db) = true ->
  rowids_are_int64 db.
Proof.
  intros H. apply andb_prop in H. destruct H as [H1 H2].
  rewrite List.forallb_forall in H1, H2.
  split; apply List.Forall_forall; assumption.
Qed.

Lemma stored_item_id_int64 (db : QualityControlDB) (n : Z) :
  rowids_are_int64 db -> In n (checklist_ids db) -> int64 n = true.
Proof.
  intros [H _] Hin. rewrite List.Forall_forall in H. now apply H.
Qed.

Lemma stored_defect_id_int64 (db : QualityControlDB) (n : Z) :
  rowids_are_int64 db -> In n (defect_row_ids db) -> int64 n = true.
Proof.
  intros [_ H] Hin. rewrite List.Forall_forall in H. now apply H.
Qed.

Lemma update_checklist_status_bound
  (db : QualityControlDB) (now : string) (item_id : Z) (status notes : string) :
  int64 item_id = true ->
  update_checklist_status db now item_id status notes =
  (DB (Table (fst (update_where ChecklistRow.id item_id
                     (set_checklist_status status notes now) (rows (checklist_items db))))
         (seq (checklist_items db)))
      (defects db),
   Returned (Nat.ltb 0 (snd (update_where ChecklistRow.id item_id
                               (set_checklist_status status notes now)
                               (rows (checklist_items db)))))).
Proof. intros H. unfold update_checklist_status. now rewrite H. Qed.

Lemma update_checklist_status_unbound
  (db : QualityControlDB) (now : string) (item_id : Z) (status notes : string) :
  int64 item_id = false ->
  update_checklist_status db now item_id status notes = (db, Raised OverflowError).
Proof. intros H. unfold update_checklist_status. now rewrite H. Qed.

Lemma resolve_defect_bound (db : QualityControlDB) (now : string) (defect_id : Z) :
  int64 defect_id = true ->
  resolve_defect db now defect_id =
  (DB (checklist_items db)
      (Table (fst (update_where DefectRow.id defect_id (set_resolved now)
                     (rows (defects db))))
         (seq (defects db))),
   Returned (Nat.ltb 0 (snd (update_where DefectRow.id defect_id (set_resolved now)
                               (rows (defects db)))))).
Proof. intros H. unfold resolve_defect. now rewrite H. Qed.

Lemma resolve_defect_unbound (db : QualityControlDB) (now : string) (defect_id : Z) :
  int64 defect_id = false ->
  resolve_defect db now defect_id = (db, Raised OverflowError).
Proof. intros H. unfold resolve_defect. now rewrite H. Qed.

(** C3, as the code has it: [update_checklist_status] on an id in the
    signed 64-bit range that matches no checklist row returns false, raises
    nothing, and leaves the whole database as it was. *)
Theorem update_checklist_status_not_found
  (db : QualityControlDB) (now : string) (item_id : Z) (status notes : string) :
  int64 item_id = true ->
  ~ In item_id (checklist_ids db) ->
  update_checklist_status db now item_id status notes = (db, Returned false).
Proof.
  intros Hb Hn. rewrite update_checklist_status_bound by exact Hb.
  rewrite update_where_miss by exact Hn.
  destruct db as [[rs s] d]. reflexivity.
Qed.

Lemma update_checklist_status_not_found_witness :
  let db := fst (add_checklist_item empty_db
                   (ChecklistItem.mk None "check login" "general" "medium" "pending" ""
                      "2026-11-03T09:00:00" "2026-11-03T09:00:00")) in
  update_checklist_status db "2026-11-03T10:00:00" 7 "passed" "ok" = (db, Returned false).
Proof.
  intros db. apply (update_checklist_status_not_found db); [reflexivity|].
  vm_compute. intros [H|[]]. discriminate H.
Defined.

(** C3 as stated fails for an id outside the signed 64-bit range: no row
    has the id, yet the call does not return false, it raises
    [OverflowError] (the database is left as it was). *)
Lemma update_checklist_status_overflow :
  let db := fst (add_checklist_item empty_db
                   (ChecklistItem.mk None "check login" "general" "medium" "pending" ""
                      "2026-11-03T09:00:00" "2026-11-03T09:00:00")) in
  ~ In 9223372036854775808 (checklist_ids db) /\
  update_checklist_status db "2026-11-03T10:00:00" 9223372036854775808 "passed" "ok"
    = (db, Raised OverflowError) /\
  snd (update_checklist_status db "2026-11-03T10:00:00" 9223372036854775808 "passed" "ok")
    <> Returned false.
Proof.
  vm_compute. split; [|split; [reflexivity|discriminate]].
  intros [H|[]]. discriminate H.
Qed.

(** C4, as the code has it: on an existing id [update_checklist_status]
    returns true, and the following unfiltered listing shows the item with
    the given status and notes and with [updated_at] equal to the clock
    reading of the call; that is strictly later than the stored value
    whenever the stored value precedes the reading.  (The stored ids are
    rowids, signed 64-bit integers, so the id binds.) *)
Theorem update_checklist_status_found
  (db : QualityControlDB) (now : string) (item_id : Z) (status notes : string) :
  rowids_are_int64 db ->
  In item_id (checklist_ids db) ->
  let '(db', found) := update_checklist_status db now item_id status notes in
  found = Returned true /\
  (exists r, In r (list_checklist_items db' None) /\ ChecklistRow.id r = item_id) /\
  (forall r, In r (list_checklist_items db' None) -> ChecklistRow.id r = item_id ->
     ChecklistRow.status r = status /\ ChecklistRow.notes r = notes /\
     ChecklistRow.updated_at r = now) /\
  (forall r0 r, In r0 (rows (checklist_items db)) -> ChecklistRow.id r0 = item_id ->
     ts_lt (ChecklistRow.updated_at r0) now ->
     In r (list_checklist_items db' None) -> ChecklistRow.id r = item_id ->
     ts_lt (ChecklistRow.updated_at r0) (ChecklistRow.updated_at r)).
Proof.
  intros Hrow Hin.
  rewrite update_checklist_status_bound by exact (stored_item_id_int64 _ _ Hrow Hin).
  pose proof (update_where_changes ChecklistRow.id item_id
                (set_checklist_status status notes now) (rows (checklist_items db))) as Hch.
  pose proof (update_where_ids ChecklistRow.id item_id
                (set_checklist_status status notes now) (rows (checklist_items db))
                (fun _ => eq_refl)) as Hids.
  pose proof (update_where_In ChecklistRow.id item_id
                (set_checklist_status status notes now) (rows (checklist_items db))) as HIn.
  destruct (update_where _ _ _ _) as [rs changes]; simpl in *.
  assert (Hshown : forall r, In r (list_checklist_items
            (DB (Table rs (seq (checklist_items db))) (defects db)) None) ->
            ChecklistRow.id r = item_id ->
            ChecklistRow.status r = status /\ ChecklistRow.notes r = notes /\
            ChecklistRow.updated_at r = now).
  { intros r Hr Hid. apply In_list_checklist_items in Hr; simpl in Hr.
    destruct (HIn r Hr) as (r0 & _ & ->).
    destruct (Z.eqb_spec (ChecklistRow.id r0) item_id) as [_|Hne]; [now simpl|].
    contradiction. }
  repeat split.
  - f_equal. now apply Hch.
  - unfold checklist_ids in Hin. rewrite <- Hids in Hin.
    apply List.in_map_iff in Hin. destruct Hin as (r & Hid & Hr).
    exists r. split; [|exact Hid]. now apply In_list_checklist_items.
  - now apply Hshown.
  - now apply Hshown.
  - now apply Hshown.
  - intros r0 r _ _ Hlt Hr Hid.
    destruct (Hshown r Hr Hid) as (_ & _ & ->). exact Hlt.
Qed.

Lemma update_checklist_status_found_witness :
  let db := fst (add_checklist_item empty_db
                   (ChecklistItem.mk None "check login" "general" "medium" "pending" ""
                      "2026-11-03T09:00:00" "2026-11-03T09:00:00")) in
  let '(db', found) := update_checklist_status db "2026-11-03T10:00:00" 1 "passed" "ok" in
  found = Returned true /\
  (exists r, In r (list_checklist_items db' None) /\ ChecklistRow.id r = 1) /\
  (forall r, In r (list_checklist_items db' None) -> ChecklistRow.id r = 1 ->
     ChecklistRow.status r = "passed" /\ ChecklistRow.notes r = "ok" /\
     ChecklistRow.updated_at r = "2026-11-03T10:00:00") /\
  (forall r0 r, In r0 (rows (checklist_items db)) -> ChecklistRow.id r0 = 1 ->
     ts_lt (ChecklistRow.updated_at r0) "2026-11-03T10:00:00" ->
     In r (list_checklist_items db' None) -> ChecklistRow.id r = 1 ->
     ts_lt (ChecklistRow.updated_at r0) (ChecklistRow.updated_at r)).
Proof.
  intros db.
  apply (update_checklist_status_found db "2026-11-03T10:00:00" 1 "passed" "ok").
  - apply rowids_are_int64_check. reflexivity.
  - vm_compute. now left.
Defined.

(** C4 as stated fails: an item stored with an [updated_at] that is not
    before the clock reading of the update (here a value the caller put in
    the [ChecklistItem]) is shown afterwards with an [updated_at] that is
    not strictly later than before. *)
Lemma update_checklist_status_not_later :
  let item := ChecklistItem.mk None "check login" "general" "medium" "pending" ""
                "2026-11-03T09:00:00" "2030-01-01T00:00:00" in
  let '(db1, rid) := add_checklist_item empty_db item in
  let '(db2, found) := update_checklist_status db1 "2026-11-03T10:00:00" rid "passed" "ok" in
  found = Returned true /\
  exists r0 r,
    rows (checklist_items db1) = [r0] /\ ChecklistRow.id r0 = rid /\
    list_checklist_items db2 None = [r] /\ ChecklistRow.id r = rid /\
    ChecklistRow.status r = "passed" /\ ChecklistRow.notes r = "ok" /\
    ~ ts_lt (ChecklistRow.updated_at r0) (ChecklistRow.updated_at r).
Proof.
  vm_compute. split; [reflexivity|].
  eexists; eexists. repeat (split; [reflexivity|]). discriminate.
Qed.

(** ** Defect store: resolution *)

Lemma In_list_defects (db : QualityControlDB) (r : DefectRow.t) :
  In r (list_defects db None) <-> In r (rows (defects db)).
Proof.
  unfold list_defects; simpl.
  split; apply Permutation_in;
    [|symmetry]; apply order_by_desc_perm.
Qed.

Lemma resolve_defect_found (db : QualityControlDB) (now : string) (defect_id : Z) :
  snd (resolve_defect db now defect_id) = Returned true <->
  int64 defect_id = true /\ In defect_id (defect_row_ids db).
Proof.
  pose proof (update_where_changes DefectRow.id defect_id (set_resolved now)
                (rows (defects db))) as H.
  unfold update_where in H; simpl in H.
  unfold resolve_defect, defect_row_ids. destruct (int64 defect_id); simpl.
  - split.
    + intros E. inversion E as [E']. split; [reflexivity|]. now apply H.
    + intros [_ Hin]. f_equal. now apply H.
  - split; [discriminate|intros [E _]; discriminate E].
Qed.

Lemma resolve_defect_ids (db : QualityControlDB) (now : string) (defect_id : Z) :
  defect_row_ids (fst (resolve_defect db now defect_id)) = defect_row_ids db.
Proof.
  unfold resolve_defect, defect_row_ids. destruct (int64 defect_id); simpl; [|reflexivity].
  apply (update_where_ids DefectRow.id defect_id (set_resolved now)). reflexivity.
Qed.

Lemma resolve_defect_shown (db : QualityControlDB) (now : string) (defect_id : Z)
  (r : DefectRow.t) :
  int64 defect_id = true ->
  In r (list_defects (fst (resolve_defect db now defect_id)) None) ->
  DefectRow.id r = defect_id ->
  DefectRow.status r = "resolved" /\ DefectRow.resolved_at r = Some now.
Proof.
  intros Hb Hr Hid. apply In_list_defects in Hr.
  rewrite resolve_defect_bound in Hr by exact Hb. simpl in Hr.
  apply (update_where_In DefectRow.id defect_id (set_resolved now)) in Hr.
  destruct Hr as (r0 & _ & ->).
  destruct (Z.eqb_spec (DefectRow.id r0) defect_id) as [_|Hne]; [now simpl|].
  contradiction.
Qed.

Lemma listed_defect_id (db : QualityControlDB) (r : DefectRow.t) :
  In r (list_defects db None) -> In (DefectRow.id r) (defect_row_ids db).
Proof.
  intros Hr. apply In_list_defects in Hr. now apply List.in_map.
Qed.

(** C5, as the code has it: [resolve_defect] returns true exactly when a
    defect row has the id; the row is then read back with status "resolved"
    and [resolved_at] set to the clock reading of the call.  A second call
    on the same id returns true as well and overwrites [resolved_at] with
    its own reading, which is the newer one whenever the clock has advanced
    between the calls.  (The stored ids are rowids, signed 64-bit integers,
    so the id of a row binds.) *)
Theorem resolve_defect_spec
  (db : QualityControlDB) (now1 now2 : string) (defect_id : Z) :
  rowids_are_int64 db ->
  let '(db1, found1) := resolve_defect db now1 defect_id in
  let '(db2, found2) := resolve_defect db1 now2 defect_id in
  (found1 = Returned true <-> In defect_id (defect_row_ids db)) /\
  (In defect_id (defect_row_ids db) ->
     exists r, In r (list_defects db1 None) /\ DefectRow.id r = defect_id) /\
  (forall r, In r (list_defects db1 None) -> DefectRow.id r = defect_id ->
     DefectRow.status r = "resolved" /\ DefectRow.resolved_at r = Some now1) /\
  (found2 = Returned true <-> In defect_id (defect_row_ids db)) /\
  (forall r1 r2,
     In r1 (list_defects db1 None) -> DefectRow.id r1 = defect_id ->
     In r2 (list_defects db2 None) -> DefectRow.id r2 = defect_id ->
     DefectRow.status r2 = "resolved" /\
     exists t1 t2, DefectRow.resolved_at r1 = Some t1 /\
                   DefectRow.resolved_at r2 = Some t2 /\
                   t1 = now1 /\ t2 = now2 /\
                   (ts_lt now1 now2 -> ts_lt t1 t2)).
Proof.
  intros Hrow.
  pose proof (resolve_defect_found db now1 defect_id) as Hf1.
  pose proof (resolve_defect_ids db now1 defect_id) as Hi1.
  pose proof (resolve_defect_shown db now1 defect_id) as Hs1.
  destruct (resolve_defect db now1 defect_id) as [db1 found1]; simpl in Hf1, Hi1, Hs1.
  pose proof (resolve_defect_found db1 now2 defect_id) as Hf2.
  pose proof (resolve_defect_shown db1 now2 defect_id) as Hs2.
  destruct (resolve_defect db1 now2 defect_id) as [db2 found2]; simpl in Hf2, Hs2.
  rewrite Hi1 in Hf2.
  assert (Hb : In defect_id (defect_row_ids db) -> int64 defect_id = true)
    by apply (stored_defect_id_int64 db defect_id Hrow).
  assert (Hb1 : forall r, In r (list_defects db1 None) -> DefectRow.id r = defect_id ->
                int64 defect_id = true).
  { intros r Hr Hid. apply Hb. rewrite <- Hi1, <- Hid. now apply listed_defect_id. }
  split; [rewrite Hf1; tauto|].
  split; [|split; [|split; [rewrite Hf2; tauto|]]].
  - intros Hin. rewrite <- Hi1 in Hin. unfold defect_row_ids in Hin.
    apply List.in_map_iff in Hin. destruct Hin as (r & Hid & Hr).
    exists r. split; [|exact Hid]. now apply In_list_defects.
  - intros r Hr Hid. apply Hs1; [exact (Hb1 r Hr Hid)|exact Hr|exact Hid].
  - intros r1 r2 Hr1 Hid1 Hr2 Hid2.
    pose proof (Hb1 r1 Hr1 Hid1) as Hin.
    destruct (Hs1 r1 Hin Hr1 Hid1) as [_ Ht1].
    destruct (Hs2 r2 Hin Hr2 Hid2) as [Hst Ht2].
    split; [exact Hst|]. exists now1, now2. tauto.
Qed.

Lemma resolve_defect_spec_witness :
  let db := fst (add_defect empty_db
                   (Defect.mk None "crash on save" "" "high" "general" "open" ""
                      "2026-11-03T09:00:00" None)) in
  let '(db1, found1) := resolve_defect db "2026-11-03T10:00:00" 1 in
  let '(db2, found2) := resolve_defect db1 "2026-11-03T11:00:00" 1 in
  found1 = Returned true /\ found2 = Returned true /\
  (forall r1 r2,
     In r1 (list_defects db1 None) -> DefectRow.id r1 = 1 ->
     In r2 (list_defects db2 None) -> DefectRow.id r2 = 1 ->
     DefectRow.status r2 = "resolved" /\
     exists t1 t2, DefectRow.resolved_at r1 = Some t1 /\
                   DefectRow.resolved_at r2 = Some t2 /\
                   t1 = "2026-11-03T10:00:00" /\ t2 = "2026-11-03T11:00:00" /\
                   (ts_lt "2026-11-03T10:00:00" "2026-11-03T11:00:00" -> ts_lt t1 t2)).
Proof.
  intros db.
  assert (Hrow : rowids_are_int64 db) by (apply rowids_are_int64_check; reflexivity).
  pose proof (resolve_defect_spec db "2026-11-03T10:00:00" "2026-11-03T11:00:00" 1
                Hrow) as H.
  destruct (resolve_defect db "2026-11-03T10:00:00" 1) as [db1 found1] eqn:E1.
  destruct (resolve_defect db1 "2026-11-03T11:00:00" 1) as [db2 found2] eqn:E2.
  destruct H as (H1 & _ & _ & H2 & H3).
  assert (Hin : In 1 (defect_row_ids db)) by (vm_compute; now left).
  split; [now apply H1|]. split; [now apply H2|exact H3].
Defined.

(** C5 as stated fails when the wall clock of the second call does not read
    later than that of the first (here local time set back by an hour
    between the calls, as at the end of daylight saving time): both calls
    return true, and the second leaves a [resolved_at] that is not newer. *)
Lemma resolve_defect_not_newer :
  let defect := Defect.mk None "crash on save" "" "high" "general" "open" ""
                  "2026-11-01T01:30:00" None in
  let '(db, rid) := add_defect empty_db defect in
  let '(db1, found1) := resolve_defect db "2026-11-01T01:59:30" rid in
  let '(db2, found2) := resolve_defect db1 "2026-11-01T01:00:10" rid in
  found1 = Returned true /\ found2 = Returned true /\
  exists r1 r2 t1 t2,
    list_defects db1 None = [r1] /\ DefectRow.id r1 = rid /\
    list_defects db2 None = [r2] /\ DefectRow.id r2 = rid /\
    DefectRow.resolved_at r1 = Some t1 /\ DefectRow.resolved_at r2 = Some t2 /\
    ~ ts_lt t1 t2.
Proof.
  vm_compute. split; [reflexivity|]. split; [reflexivity|].
  do 4 eexists. repeat (split; [reflexivity|]). discriminate.
Qed.

(** ** What the writes leave alone *)

Lemma update_where_changed {R} (rid : R -> Z) (k : Z) (set : R -> R) (rs : list R) (i : nat) :
  fst (update_where rid k set rs) !! i <> rs !! i -> map rid rs !! i = Some k.
Proof.
  rewrite update_where_lookup.
  change (map rid rs) with (rid <$> rs). rewrite list_lookup_fmap.
  destruct (rs !! i) as [r|]; simpl; [|congruence].
  destruct (Z.eqb_spec (rid r) k) as [->|_]; congruence.
Qed.

Lemma update_where_single {R} (rid : R -> Z) (k : Z) (set : R -> R) (rs : list R) (i j : nat) :
  NoDup (map rid rs) ->
  fst (update_where rid k set rs) !! i <> rs !! i ->
  fst (update_where rid k set rs) !! j <> rs !! j ->
  i = j.
Proof.
  intros Hnd Hi Hj. apply update_where_changed in Hi, Hj.
  exact (NoDup_lookup _ _ _ _ Hnd Hi Hj).
Qed.

Lemma update_checklist_status_row
  (db : QualityControlDB) (now : string) (item_id : Z) (status notes : string)
  (i : nat) (r : ChecklistRow.t) :
  rows (checklist_items db) !! i = Some r ->
  exists r',
    rows (checklist_items (fst (update_checklist_status db now item_id status notes))) !! i
      = Some r' /\
    same_item r r' /\ (ChecklistRow.id r <> item_id -> r' = r).
Proof.
  intros Hr. destruct (int64 item_id) eqn:Hb.
  - rewrite update_checklist_status_bound by exact Hb. simpl.
    pose proof (update_where_lookup ChecklistRow.id item_id
                  (set_checklist_status status notes now) (rows (checklist_items db)) i) as Hl.
    simpl in Hl. rewrite Hl, Hr; simpl.
    eexists; split; [reflexivity|].
    destruct (Z.eqb_spec (ChecklistRow.id r) item_id) as [E|E].
    + split; [repeat split|contradiction].
    + split; [repeat split|reflexivity].
  - rewrite update_checklist_status_unbound by exact Hb. simpl.
    exists r. split; [exact Hr|]. split; [repeat split|reflexivity].
Qed.

Lemma resolve_defect_row
  (db : QualityControlDB) (now : string) (defect_id : Z) (i : nat) (r : DefectRow.t) :
  rows (defects db) !! i = Some r ->
  exists r',
    rows (defects (fst (resolve_defect db now defect_id))) !! i = Some r' /\
    same_defect r r' /\ (DefectRow.id r <> defect_id -> r' = r).
Proof.
  intros Hr. destruct (int64 defect_id) eqn:Hb.
  - rewrite resolve_defect_bound by exact Hb. simpl.
    pose proof (update_where_lookup DefectRow.id defect_id
                  (set_resolved now) (rows (defects db)) i) as Hl.
    simpl in Hl. rewrite Hl, Hr; simpl.
    eexists; split; [reflexivity|].
    destruct (Z.eqb_spec (DefectRow.id r) defect_id) as [E|E].
    + split; [repeat split|contradiction].
    + split; [repeat split|reflexivity].
  - rewrite resolve_defect_unbound by exact Hb. simpl.
    exists r. split; [exact Hr|]. split; [repeat split|reflexivity].
Qed.

Lemma update_checklist_status_frame
  (db : QualityControlDB) (now : string) (item_id : Z) (status notes : string) :
  let db' := fst (update_checklist_status db now item_id status notes) in
  defects db' = defects db /\
  seq (checklist_items db') = seq (checklist_items db) /\
  length (rows (checklist_items db')) = length (rows (checklist_items db)) /\
  (forall i, rows (checklist_items db') !! i <> rows (checklist_items db) !! i ->
     checklist_ids db !! i = Some item_id).
Proof.
  intros db'. subst db'. destruct (int64 item_id) eqn:Hb.
  - rewrite update_checklist_status_bound by exact Hb. simpl.
    split; [reflexivity|]. split; [reflexivity|]. split; [apply List.length_map|].
    intros i. apply update_where_changed.
  - rewrite update_checklist_status_unbound by exact Hb. simpl.
    split; [reflexivity|]. split; [reflexivity|]. split; [reflexivity|].
    intros i H. now contradiction H.
Qed.

Lemma resolve_defect_frame (db : QualityControlDB) (now : string) (defect_id : Z) :
  let db' := fst (resolve_defect db now defect_id) in
  checklist_items db' = checklist_items db /\
  seq (defects db') = seq (defects db) /\
  length (rows (defects db')) = length (rows (defects db)) /\
  (forall i, rows (defects db') !! i <> rows (defects db) !! i ->
     defect_row_ids db !! i = Some defect_id).
Proof.
  intros db'. subst db'. destruct (int64 defect_id) eqn:Hb.
  - rewrite resolve_defect_bound by exact Hb. simpl.
    split; [reflexivity|]. split; [reflexivity|]. split; [apply List.length_map|].
    intros i. apply update_where_changed.
  - rewrite resolve_defect_unbound by exact Hb. simpl.
    split; [reflexivity|]. split; [reflexivity|]. split; [reflexivity|].
    intros i H. now contradiction H.
Qed.

(** C9: no write changes a [created_at].  [update_checklist_status] leaves
    the defects table alone and, in the checklist table, keeps every row in
    place with its id, title, category, severity and [created_at]; rows
    with another id are unchanged, so at most the one row with the id
    changes.  [resolve_defect] does the same on the defects table, keeping
    all but status and [resolved_at].  Every call of a sequence keeps the id
    and [created_at] of every row present before it. *)
Theorem writes_keep_created_at (db : QualityControlDB) :
  primary_keys_unique db ->
  (forall now item_id status notes,
     let db' := fst (update_checklist_status db now item_id status notes) in
     defects db' = defects db /\
     seq (checklist_items db') = seq (checklist_items db) /\
     length (rows (checklist_items db')) = length (rows (checklist_items db)) /\
     (forall i r, rows (checklist_items db) !! i = Some r ->
        exists r', rows (checklist_items db') !! i = Some r' /\
                   same_item r r' /\ (ChecklistRow.id r <> item_id -> r' = r)) /\
     (forall i j,
        rows (checklist_items db') !! i <> rows (checklist_items db) !! i ->
        rows (checklist_items db') !! j <> rows (checklist_items db) !! j ->
        i = j)) /\
  (forall now defect_id,
     let db' := fst (resolve_defect db now defect_id) in
     checklist_items db' = checklist_items db /\
     seq (defects db') = seq (defects db) /\
     length (rows (defects db')) = length (rows (defects db)) /\
     (forall i r, rows (defects db) !! i = Some r ->
        exists r', rows (defects db') !! i = Some r' /\
                   same_defect r r' /\ (DefectRow.id r <> defect_id -> r' = r)) /\
     (forall i j,
        rows (defects db') !! i <> rows (defects db) !! i ->
        rows (defects db') !! j <> rows (defects db) !! j ->
        i = j)) /\
  (forall o,
     let db' := fst (step db o) in
     (forall i r, rows (checklist_items db) !! i = Some r ->
        exists r', rows (checklist_items db') !! i = Some r' /\
                   ChecklistRow.id r' = ChecklistRow.id r /\
                   ChecklistRow.created_at r' = ChecklistRow.created_at r) /\
     (forall i r, rows (defects db) !! i = Some r ->
        exists r', rows (defects db') !! i = Some r' /\
                   DefectRow.id r' = DefectRow.id r /\
                   DefectRow.created_at r' = DefectRow.created_at r)).
Proof.
  intros [Hci Hdf]. split; [|split].
  - intros now item_id status notes db'.
    destruct (update_checklist_status_frame db now item_id status notes)
      as (Hd & Hs & Hl & Hch).
    split; [exact Hd|]. split; [exact Hs|]. split; [exact Hl|].
    split; [intros i r; apply update_checklist_status_row|].
    intros i j Hi Hj. apply Hch in Hi, Hj.
    exact (NoDup_lookup _ _ _ _ Hci Hi Hj).
  - intros now defect_id db'.
    destruct (resolve_defect_frame db now defect_id) as (Hd & Hs & Hl & Hch).
    split; [exact Hd|]. split; [exact Hs|]. split; [exact Hl|].
    split; [intros i r; apply resolve_defect_row|].
    intros i j Hi Hj. apply Hch in Hi, Hj.
    exact (NoDup_lookup _ _ _ _ Hdf Hi Hj).
  - intros [item|defect|now item_id status notes|now defect_id] db'; subst db'.
    + simpl. split; intros i r Hr; exists r; split; try tauto.
      now apply lookup_app_l_Some.
    + simpl. split; intros i r Hr; exists r; split; try tauto.
      now apply lookup_app_l_Some.
    + assert (Hfst : fst (step db (UpdateStatus now item_id status notes)) =
                     fst (update_checklist_status db now item_id status notes)).
      { simpl. now destruct (update_checklist_status db now item_id status notes). }
      rewrite Hfst. split; intros i r Hr.
      * destruct (update_checklist_status_row db now item_id status notes i r Hr)
          as (r' & Hr' & Hsame & _).
        exists r'. unfold same_item in Hsame. tauto.
      * destruct (update_checklist_status_frame db now item_id status notes)
          as (Hd & _). rewrite Hd. exists r. tauto.
    + assert (Hfst : fst (step db (ResolveDefect now defect_id)) =
                     fst (resolve_defect db now defect_id)).
      { simpl. now destruct (resolve_defect db now defect_id). }
      rewrite Hfst. split; intros i r Hr.
      * destruct (resolve_defect_frame db now defect_id) as (Hd & _).
        rewrite Hd. exists r. tauto.
      * destruct (resolve_defect_row db now defect_id i r Hr) as (r' & Hr' & Hsame & _).
        exists r'. unfold same_defect in Hsame. tauto.
Qed.

Lemma writes_keep_created_at_witness :
  let db := fst (add_checklist_item empty_db
                   (ChecklistItem.mk None "check login" "general" "medium" "pending" ""
                      "2026-11-03T09:00:00" "2026-11-03T09:00:00")) in
  let db' := fst (update_checklist_status db "2026-11-03T10:00:00" 1 "passed" "ok") in
  primary_keys_unique db /\
  defects db' = defects db /\
  (forall i r, rows (checklist_items db) !! i = Some r ->
     exists r', rows (checklist_items db') !! i = Some r' /\
                same_item r r' /\ (ChecklistRow.id r <> 1 -> r' = r)).
Proof.
  assert (Hpk : primary_keys_unique
                  (fst (add_checklist_item empty_db
                     (ChecklistItem.mk None "check login" "general" "medium" "pending" ""
                        "2026-11-03T09:00:00" "2026-11-03T09:00:00")))).
  { split; vm_compute; repeat constructor. intros H; inversion H. }
  split; [exact Hpk|].
  destruct (writes_keep_created_at _ Hpk) as [Hupd _].
  destruct (Hupd "2026-11-03T10:00:00" 1 "passed" "ok") as (Hd & _ & _ & Hrows & _).
  split; [exact Hd|exact Hrows].
Defined.

(** ** Listings *)

Lemma select_where_nonempty {R} (col : R -> string) (v : string) (rs : list R) :
  v <> "" ->
  select_where col (Some v) rs = List.filter (fun r => String.eqb (col r) v) rs.
Proof.
  intros Hv. unfold select_where, truthy.
  now destruct (String.eqb_spec v "").
Qed.

Lemma run_add_items_rows (db : QualityControlDB) (items : list ChecklistItem.t) :
  let '(db', rs) := run db (AddItem <$> items) in
  rows (checklist_items db') =
    (rows (checklist_items db) ++ zip_with checklist_row (item_ids rs) items)%list /\
  length (item_ids rs) = length items.
Proof.
  revert db. induction items as [|item items IH]; intros db.
  - simpl. now rewrite List.app_nil_r.
  - rewrite fmap_cons.
    change (run db (AddItem item :: (AddItem <$> items)))
      with (let '(db1, r) := step db (AddItem item) in
            let '(db2, rs) := run db1 (AddItem <$> items) in (db2, r :: rs)).
    simpl.
    specialize (IH (DB (Table (rows (checklist_items db)
                               ++ [checklist_row (next_rowid ChecklistRow.id (checklist_items db)) item])
                          (next_rowid ChecklistRow.id (checklist_items db)))
                      (defects db))).
    destruct (run _ (AddItem <$> items)) as [db2 rs].
    destruct IH as [IH1 IH2]. simpl in IH1 |- *.
    rewrite IH1, <- List.app_assoc. simpl. now rewrite IH2.
Qed.

(** C10: the empty string as the category filter of [list_checklist_items],
    or as the status filter of [list_defects], is no filter: the call
    returns what the call without an argument returns, every row of the
    table. *)
Theorem empty_string_filter_lists_all (db : QualityControlDB) :
  list_checklist_items db (Some "") = list_checklist_items db None /\
  list_defects db (Some "") = list_defects db None /\
  Permutation (list_checklist_items db (Some "")) (rows (checklist_items db)) /\
  Permutation (list_defects db (Some "")) (rows (defects db)).
Proof.
  repeat split; try reflexivity; apply order_by_desc_perm.
Qed.

(** C2, as the code has it: after N calls of [add_checklist_item] on a new
    store the unfiltered listing has exactly N rows, the N items under the
    ids the calls returned, by [created_at] descending; for a category
    argument other than the empty string the listing is exactly the rows of
    that category, in the order they have in the unfiltered listing, and it
    is the empty list when no row matches. *)
Theorem list_checklist_items_spec
  (db0 : QualityControlDB) (items : list ChecklistItem.t) (category : string) :
  category <> "" ->
  let '(fresh, ids) := run empty_db (AddItem <$> items) in
  let '(db, _) := run db0 (AddItem <$> items) in
  let all := list_checklist_items db None in
  let matching := list_checklist_items db (Some category) in
  let has_category r := String.eqb (ChecklistRow.category r) category in
  length (list_checklist_items fresh None) = length items /\
  Permutation (list_checklist_items fresh None)
    (zip_with checklist_row (item_ids ids) items) /\
  StronglySorted (desc ChecklistRow.created_at) (list_checklist_items fresh None) /\
  length all = (length (rows (checklist_items db0)) + length items)%nat /\
  Permutation all (rows (checklist_items db)) /\
  StronglySorted (desc ChecklistRow.created_at) all /\
  matching = List.filter has_category all /\
  StronglySorted (desc ChecklistRow.created_at) matching /\
  (forall r, In r matching <->
     In r (rows (checklist_items db)) /\ ChecklistRow.category r = category) /\
  ((forall r, In r (rows (checklist_items db)) -> ChecklistRow.category r <> category) ->
   matching = []).
Proof.
  intros Hc.
  pose proof (run_add_items_rows empty_db items) as Hfresh.
  destruct (run empty_db (AddItem <$> items)) as [fresh ids].
  pose proof (run_add_items_rows db0 items) as Hdb.
  destruct (run db0 (AddItem <$> items)) as [db rs].
  destruct Hfresh as [Hf1 Hf2], Hdb as [Hd1 Hd2]. simpl in Hf1.
  intros all matching has_category.
  assert (Hall : Permutation all (rows (checklist_items db)))
    by apply order_by_desc_perm.
  assert (Hfr : Permutation (list_checklist_items fresh None)
                  (zip_with checklist_row (item_ids ids) items)).
  { rewrite <- Hf1. apply order_by_desc_perm. }
  assert (Hm : matching = List.filter has_category all).
  { unfold matching, all, list_checklist_items.
    rewrite select_where_nonempty by exact Hc.
    symmetry. apply filter_order_by_desc. }
  assert (Hin : forall r, In r matching <->
            In r (rows (checklist_items db)) /\ ChecklistRow.category r = category).
  { intros r. rewrite Hm, List.filter_In. unfold has_category.
    rewrite String.eqb_eq. split; intros [H1 H2]; split; try exact H2.
    - exact (Permutation_in _ Hall H1).
    - exact (Permutation_in _ (Permutation_sym Hall) H1). }
  split.
  { rewrite (Permutation_length Hfr), length_zip_with. lia. }
  split; [exact Hfr|].
  split; [apply order_by_desc_sorted|].
  split.
  { rewrite (Permutation_length Hall), Hd1, List.length_app, length_zip_with. lia. }
  split; [exact Hall|].
  split; [apply order_by_desc_sorted|].
  split; [exact Hm|].
  split; [apply order_by_desc_sorted|].
  split; [exact Hin|].
  intros Hnone. destruct matching as [|r l] eqn:E; [reflexivity|].
  exfalso. destruct (proj1 (Hin r) (or_introl eq_refl)) as [Hr Hcat].
  exact (Hnone r Hr Hcat).
Qed.

Lemma list_checklist_items_spec_witness :
  let items :=
    [ChecklistItem.mk None "check login" "ui" "medium" "pending" ""
       "2026-11-03T09:00:00" "2026-11-03T09:00:00";
     ChecklistItem.mk None "check backup" "ops" "high" "pending" ""
       "2026-11-03T09:05:00" "2026-11-03T09:05:00"] in
  let '(db, _) := run empty_db (AddItem <$> items) in
  length (list_checklist_items db None) = 2%nat /\
  list_checklist_items db (Some "ui") =
    List.filter (fun r => String.eqb (ChecklistRow.category r) "ui")
      (list_checklist_items db None).
Proof.
  intros items.
  pose proof (list_checklist_items_spec empty_db items "ui" ltac:(discriminate)) as H.
  destruct (run empty_db (AddItem <$> items)) as [db rs].
  destruct H as (H1 & _ & _ & _ & _ & _ & H7 & _).
  split; [exact H1|exact H7].
Defined.

(** C2 as stated fails for the category argument "": the listing is then
    not the rows whose category is the empty string (here there is none)
    but every row. *)
Lemma list_checklist_items_empty_category :
  let item := ChecklistItem.mk None "check login" "ui" "medium" "pending" ""
                "2026-11-03T09:00:00" "2026-11-03T09:00:00" in
  let '(db, _) := run empty_db [AddItem item] in
  List.filter (fun r => String.eqb (ChecklistRow.category r) "")
    (rows (checklist_items db)) = [] /\
  exists r, list_checklist_items db (Some "") = [r] /\ ChecklistRow.category r = "ui".
Proof.
  vm_compute. split; [reflexivity|]. eexists. split; reflexivity.
Qed.

(** ** Identifiers *)

Lemma max_rowid_ids {R} (rid : R -> Z) (rs : list R) :
  max_rowid rid rs = max_rowid (fun n : Z => n) (map rid rs).
Proof. induction rs as [|r rs IH]; simpl; [reflexivity|]. now rewrite IH. Qed.

Lemma max_rowid_ge (ids : list Z) (n : Z) :
  In n ids -> n <= max_rowid (fun n : Z => n) ids.
Proof.
  induction ids as [|m ids IH]; simpl; [tauto|].
  intros [->|H]; [lia|]. specialize (IH H). lia.
Qed.

Lemma max_rowid_snoc (ids : list Z) (n : Z) :
  max_rowid (fun n : Z => n) ids < n ->
  max_rowid (fun n : Z => n) (ids ++ [n])%list = n.
Proof.
  induction ids as [|m ids IH]; simpl; [lia|].
  intros H. rewrite IH by lia. lia.
Qed.

Lemma insert_row_ids {R} (rid : R -> Z) (mk : Z -> R) (t : table R) :
  (forall n, rid (mk n) = n) ->
  let '(t', n) := insert_row rid mk t in
  n = high_water rid t + 1 /\ high_water rid t' = n /\
  map rid (rows t') = (map rid (rows t) ++ [n])%list.
Proof.
  intros Hmk. unfold insert_row, next_rowid, high_water; simpl.
  split; [reflexivity|]. rewrite List.map_app; simpl. rewrite Hmk.
  split; [|reflexivity].
  rewrite (max_rowid_ids rid (_ ++ _)%list), List.map_app; simpl. rewrite Hmk.
  rewrite max_rowid_snoc; [lia|]. rewrite <- max_rowid_ids. lia.
Qed.

(** One call: the ids of a table grow by the id the call returned, if it
    returned one, and that id is above the table's high-water mark. *)
Lemma step_ids (db : QualityControlDB) (o : op) :
  let '(db', r) := step db o in
  checklist_ids db' = (checklist_ids db ++ item_ids [r])%list /\
  defect_row_ids db' = (defect_row_ids db ++ defect_ids [r])%list /\
  hw_items db <= hw_items db' /\ hw_defects db <= hw_defects db' /\
  Forall (fun n => hw_items db < n <= hw_items db') (item_ids [r]) /\
  Forall (fun n => hw_defects db < n <= hw_defects db') (defect_ids [r]).
Proof.
  destruct o as [item|defect|now item_id status notes|now defect_id].
  - pose proof (insert_row_ids ChecklistRow.id (fun n => checklist_row n item)
                  (checklist_items db) (fun _ => eq_refl)) as H.
    unfold step, add_checklist_item.
    destruct (insert_row _ _ _) as [t n]. destruct H as (Hn & Hw & Hids).
    unfold checklist_ids, defect_row_ids, hw_items, hw_defects; simpl.
    rewrite Hids, Hw, List.app_nil_r.
    repeat split; try lia; repeat constructor; lia.
  - pose proof (insert_row_ids DefectRow.id (fun n => defect_row n defect)
                  (defects db) (fun _ => eq_refl)) as H.
    unfold step, add_defect.
    destruct (insert_row _ _ _) as [t n]. destruct H as (Hn & Hw & Hids).
    unfold checklist_ids, defect_row_ids, hw_items, hw_defects; simpl.
    rewrite Hids, Hw, List.app_nil_r.
    repeat split; try lia; repeat constructor; lia.
  - pose proof (update_where_ids ChecklistRow.id item_id
                  (set_checklist_status status notes now) (rows (checklist_items db))
                  (fun _ => eq_refl)) as Hids.
    unfold step. destruct (int64 item_id) eqn:Hb.
    + rewrite update_checklist_status_bound by exact Hb.
      unfold checklist_ids, defect_row_ids, hw_items, hw_defects, high_water; simpl in *.
      rewrite (max_rowid_ids ChecklistRow.id (map _ _)), Hids, <- max_rowid_ids.
      rewrite !List.app_nil_r. repeat split; try lia; constructor.
    + rewrite update_checklist_status_unbound by exact Hb. simpl.
      rewrite !List.app_nil_r. repeat split; try lia; constructor.
  - pose proof (update_where_ids DefectRow.id defect_id
                  (set_resolved now) (rows (defects db)) (fun _ => eq_refl)) as Hids.
    unfold step. destruct (int64 defect_id) eqn:Hb.
    + rewrite resolve_defect_bound by exact Hb.
      unfold checklist_ids, defect_row_ids, hw_items, hw_defects, high_water; simpl in *.
      rewrite (max_rowid_ids DefectRow.id (map _ _)), Hids, <- max_rowid_ids.
      rewrite !List.app_nil_r. repeat split; try lia; constructor.
    + rewrite resolve_defect_unbound by exact Hb. simpl.
      rewrite !List.app_nil_r. repeat split; try lia; constructor.
Qed.

Lemma item_ids_cons (r : result) (rs : list result) :
  item_ids (r :: rs) = (item_ids [r] ++ item_ids rs)%list.
Proof. destruct r; reflexivity. Qed.

Lemma defect_ids_cons (r : result) (rs : list result) :
  defect_ids (r :: rs) = (defect_ids [r] ++ defect_ids rs)%list.
Proof. destruct r; reflexivity. Qed.

Lemma increasing_app (l1 l2 : list Z) (a b c : Z) :
  (length l1 <= 1)%nat -> a <= b -> b <= c ->
  Forall (fun n => a < n <= b) l1 -> Forall (fun n => b < n <= c) l2 ->
  StronglySorted Z.lt l2 ->
  StronglySorted Z.lt (l1 ++ l2) /\ Forall (fun n => a < n <= c) (l1 ++ l2).
Proof.
  intros Hlen Hab Hbc H1 H2 Hs. split.
  - destruct l1 as [|x [|y l1]]; simpl in *; [exact Hs| |lia].
    constructor; [exact Hs|]. inversion H1; subst.
    eapply List.Forall_impl; [|exact H2]. simpl. intros; lia.
  - apply Forall_app. split.
    + eapply List.Forall_impl; [|exact H1]. simpl. intros; lia.
    + eapply List.Forall_impl; [|exact H2]. simpl. intros; lia.
Qed.

Lemma run_ids (db : QualityControlDB) (ops : list op) :
  let '(db', rs) := run db ops in
  checklist_ids db' = (checklist_ids db ++ item_ids rs)%list /\
  defect_row_ids db' = (defect_row_ids db ++ defect_ids rs)%list /\
  hw_items db <= hw_items db' /\ hw_defects db <= hw_defects db' /\
  Forall (fun n => hw_items db < n <= hw_items db') (item_ids rs) /\
  Forall (fun n => hw_defects db < n <= hw_defects db') (defect_ids rs) /\
  StronglySorted Z.lt (item_ids rs) /\ StronglySorted Z.lt (defect_ids rs).
Proof.
  revert db. induction ops as [|o ops IH]; intros db.
  - simpl. rewrite !List.app_nil_r. repeat split; try lia; constructor.
  - simpl. pose proof (step_ids db o) as Hstep.
    destruct (step db o) as [db1 r]. specialize (IH db1).
    destruct (run db1 ops) as [db2 rs].
    destruct Hstep as (Hc1 & Hd1 & Hwi1 & Hwd1 & Hfi1 & Hfd1).
    destruct IH as (Hc2 & Hd2 & Hwi2 & Hwd2 & Hfi2 & Hfd2 & Hsi & Hsd).
    rewrite item_ids_cons, defect_ids_cons.
    destruct (increasing_app (item_ids [r]) (item_ids rs)
                (hw_items db) (hw_items db1) (hw_items db2)) as [Hi1 Hi2];
      try assumption; [destruct r; simpl; lia|].
    destruct (increasing_app (defect_ids [r]) (defect_ids rs)
                (hw_defects db) (hw_defects db1) (hw_defects db2)) as [Hj1 Hj2];
      try assumption; [destruct r; simpl; lia|].
    rewrite Hc2, Hc1, Hd2, Hd1, <- !List.app_assoc.
    repeat split; try assumption; lia.
Qed.

Lemma increasing_NoDup (l : list Z) : StronglySorted Z.lt l -> NoDup l.
Proof.
  induction 1 as [|x l _ IH Hall]; constructor; [|exact IH].
  intros Hin. apply list_elem_of_In in Hin.
  rewrite List.Forall_forall in Hall. specialize (Hall x Hin). lia.
Qed.

Lemma ids_below_high_water {R} (rid : R -> Z) (t : table R) (n : Z) :
  In n (map rid (rows t)) -> n <= high_water rid t.
Proof.
  intros Hin. unfold high_water. rewrite max_rowid_ids.
  apply max_rowid_ge in Hin. lia.
Qed.

Lemma NoDup_above (old new : list Z) :
  NoDup old -> NoDup new ->
  (forall n m, In n old -> In m new -> n < m) ->
  NoDup (old ++ new).
Proof.
  intros Ho Hn Hlt. apply NoDup_app. repeat split; try assumption.
  intros x Hx Hx'. apply list_elem_of_In in Hx, Hx'.
  specialize (Hlt x x Hx Hx'). lia.
Qed.

(** C6: over any sequence of calls on one store, the ids returned by
    [add_checklist_item] are strictly increasing in call order, hence
    pairwise distinct, each is larger than every id the table held before
    the sequence, and the table's ids afterwards are the earlier ones
    followed by the returned ones, so that ids stay unique within the
    table; the same holds for [add_defect] and the defects table. *)
Theorem returned_ids_unique_increasing (db : QualityControlDB) (ops : list op) :
  let '(db', rs) := run db ops in
  StronglySorted Z.lt (item_ids rs) /\ StronglySorted Z.lt (defect_ids rs) /\
  NoDup (item_ids rs) /\ NoDup (defect_ids rs) /\
  checklist_ids db' = (checklist_ids db ++ item_ids rs)%list /\
  defect_row_ids db' = (defect_row_ids db ++ defect_ids rs)%list /\
  (forall n m, In n (checklist_ids db) -> In m (item_ids rs) -> n < m) /\
  (forall n m, In n (defect_row_ids db) -> In m (defect_ids rs) -> n < m) /\
  (primary_keys_unique db -> primary_keys_unique db').
Proof.
  pose proof (run_ids db ops) as H. destruct (run db ops) as [db' rs].
  destruct H as (Hc & Hd & _ & _ & Hfi & Hfd & Hsi & Hsd).
  assert (Hi : forall n m, In n (checklist_ids db) -> In m (item_ids rs) -> n < m).
  { intros n m Hn Hm. rewrite List.Forall_forall in Hfi. specialize (Hfi m Hm).
    apply ids_below_high_water in Hn. unfold hw_items in Hfi. lia. }
  assert (Hj : forall n m, In n (defect_row_ids db) -> In m (defect_ids rs) -> n < m).
  { intros n m Hn Hm. rewrite List.Forall_forall in Hfd. specialize (Hfd m Hm).
    apply ids_below_high_water in Hn. unfold hw_defects in Hfd. lia. }
  repeat split; try assumption; try (now apply increasing_NoDup).
  - rewrite Hc. destruct H as [H _].
    apply NoDup_above; [exact H|now apply increasing_NoDup|exact Hi].
  - rewrite Hd. destruct H as [_ H].
    apply NoDup_above; [exact H|now apply increasing_NoDup|exact Hj].
Qed.

Lemma returned_ids_unique_increasing_witness :
  let item ts := ChecklistItem.mk None "check login" "general" "medium" "pending" "" ts ts in
  let defect := Defect.mk None "crash on save" "" "high" "general" "open" ""
                  "2026-11-03T09:10:00" None in
  let '(db', rs) :=
    run empty_db [AddItem (item "2026-11-03T09:00:00"); AddDefect defect;
                  UpdateStatus "2026-11-03T09:20:00" 1 "passed" "ok";
                  AddItem (item "2026-11-03T09:30:00")] in
  item_ids rs = [1; 2] /\ defect_ids rs = [1] /\
  StronglySorted Z.lt (item_ids rs) /\ primary_keys_unique db'.
Proof.
  intros item defect.
  pose proof (returned_ids_unique_increasing empty_db
                [AddItem (item "2026-11-03T09:00:00"); AddDefect defect;
                 UpdateStatus "2026-11-03T09:20:00" 1 "passed" "ok";
                 AddItem (item "2026-11-03T09:30:00")]) as H.
  destruct (run empty_db _) as [db' rs] eqn:E.
  destruct H as (Hs & _ & _ & _ & _ & _ & _ & _ & Hpk).
  vm_compute in E. inversion E; subst.
  repeat split; try reflexivity; try exact Hs; apply Hpk; split; constructor.
Defined.

(** ** Exporter *)

Lemma checklist_row_of_dict_inv (r : ChecklistRow.t) :
  checklist_row_of_dict (checklist_row_dict r) = Some r.
Proof. destruct r. reflexivity. Qed.

Lemma defect_row_of_dict_inv (r : DefectRow.t) :
  defect_row_of_dict (defect_row_dict r) = Some r.
Proof. destruct r as [? ? ? ? ? ? ? ? [?|]]; reflexivity. Qed.

Lemma mapM_fmap_inv {A B} (enc : A -> B) (dec : B -> option A) (l : list A) :
  (forall x, dec (enc x) = Some x) -> mapM dec (enc <$> l) = Some l.
Proof.
  intros Hinv. apply mapM_Some. induction l as [|x l IH]; constructor; auto.
Qed.

Lemma mapM_fmap_proj {A B C} (enc : A -> B) (get : B -> option C) (proj : A -> C)
  (l : list A) :
  (forall x, get (enc x) = Some (proj x)) -> mapM get (enc <$> l) = Some (proj <$> l).
Proof.
  intros Hget. apply mapM_Some. induction l as [|x l IH]; constructor; auto.
Qed.

Lemma export_json_checklist_items (db : QualityControlDB) (now : string) :
  field "checklist_items" (export_json db now) =
  Some (VList (checklist_row_dict <$> list_checklist_items db None)).
Proof. reflexivity. Qed.

Lemma export_json_defects (db : QualityControlDB) (now : string) :
  field "defects" (export_json db now) =
  Some (VList (defect_row_dict <$> list_defects db None)).
Proof. reflexivity. Qed.

Lemma export_json_stats (db : QualityControlDB) (now : string) :
  field "stats" (export_json db now) = Some (stats_dict (get_stats db)).
Proof. reflexivity. Qed.

(** C7: the export document has exactly the top-level keys
    [checklist_items], [defects], [stats] and [exported_at]; its
    [checklist_items] and [defects] arrays are the dicts of the unfiltered
    listings of the same database, row for row and in the same order, and
    its [stats] is the dict of [get_stats]. *)
Theorem export_json_document (db : QualityControlDB) (now : string) :
  let doc := export_json db now in
  keys doc = {[ "checklist_items"; "defects"; "stats"; "exported_at" ]} /\
  field "checklist_items" doc =
    Some (VList (checklist_row_dict <$> list_checklist_items db None)) /\
  array_field "checklist_items" doc ≫= mapM checklist_row_of_dict
    = Some (list_checklist_items db None) /\
  field "defects" doc = Some (VList (defect_row_dict <$> list_defects db None)) /\
  array_field "defects" doc ≫= mapM defect_row_of_dict
    = Some (list_defects db None) /\
  field "stats" doc = Some (stats_dict (get_stats db)) /\
  field "exported_at" doc = Some (VStr now).
Proof.
  intros doc. subst doc. unfold array_field.
  rewrite export_json_checklist_items, export_json_defects, export_json_stats.
  repeat split; try reflexivity.
  - apply (mapM_fmap_inv checklist_row_dict), checklist_row_of_dict_inv.
  - apply (mapM_fmap_inv defect_row_dict), defect_row_of_dict_inv.
Qed.

Lemma is_open_defect_row_dict (r : DefectRow.t) :
  is_open (defect_row_dict r) = String.eqb (DefectRow.status r) "open".
Proof. reflexivity. Qed.

Lemma filter_is_open (l : list DefectRow.t) :
  List.filter is_open (defect_row_dict <$> l) =
  defect_row_dict <$> List.filter (fun r => String.eqb (DefectRow.status r) "open") l.
Proof.
  induction l as [|r l IH]; [reflexivity|].
  rewrite fmap_cons.
  change (List.filter is_open (defect_row_dict r :: (defect_row_dict <$> l)))
    with (if is_open (defect_row_dict r)
          then defect_row_dict r :: List.filter is_open (defect_row_dict <$> l)
          else List.filter is_open (defect_row_dict <$> l)).
  rewrite is_open_defect_row_dict, IH. simpl.
  now destruct (String.eqb (DefectRow.status r) "open").
Qed.

Lemma recount_fmap {R} (enc : R -> value) (k : string) (col : R -> string) (l : list R) :
  (forall r, str_field k (enc r) = Some (col r)) ->
  recount k (enc <$> l) = Some (group_count col l).
Proof.
  intros Hk. unfold recount.
  rewrite (mapM_fmap_proj enc (str_field k) col l Hk). simpl.
  now rewrite tally_group_count.
Qed.

Lemma counts_of_dict_inv (m : gmap string nat) :
  counts_of_dict (counts_dict m) = Some m.
Proof.
  unfold counts_of_dict, counts_dict.
  assert (H : omap as_count ((fun n => VInt (Z.of_nat n)) <$> m) = m).
  { apply map_eq. intros k. rewrite lookup_omap, lookup_fmap.
    destruct (m !! k) as [n|]; simpl; [|reflexivity].
    destruct (Z.leb_spec 0 (Z.of_nat n)) as [_|Hneg]; [|lia].
    now rewrite Nat2Z.id. }
  cbn zeta. rewrite H, map_size_fmap, Nat.eqb_refl. reflexivity.
Qed.

Lemma exported_stats_export_json (db : QualityControlDB) (now : string) :
  exported_stats (export_json db now) = Some (get_stats db).
Proof.
  unfold exported_stats. rewrite export_json_stats.
  cbn [mbind option_bind].
  change (field "checklist" (stats_dict (get_stats db)))
    with (Some (counts_dict (checklist (get_stats db)))).
  change (field "open_defects_by_severity" (stats_dict (get_stats db)))
    with (Some (counts_dict (open_defects_by_severity (get_stats db)))).
  cbn [mbind option_bind]. rewrite !counts_of_dict_inv.
  cbn [mbind option_bind]. now destruct (get_stats db).
Qed.

(** C8: for every database, the counts recomputed from the exported
    [checklist_items] array (by status) and from the exported [defects]
    array (by severity, over the entries whose status is "open") are the
    maps read from the [stats] field of the same document. *)
Theorem export_json_stats_roundtrip (db : QualityControlDB) (now : string) :
  let doc := export_json db now in
  recount_stats doc = exported_stats doc /\
  exported_stats doc = Some (get_stats db).
Proof.
  intros doc. subst doc.
  assert (H : recount_stats (export_json db now) = Some (get_stats db)).
  { unfold recount_stats, array_field.
    rewrite export_json_checklist_items, export_json_defects.
    cbn [mbind option_bind as_list].
    rewrite (recount_fmap checklist_row_dict "status" ChecklistRow.status)
      by reflexivity.
    rewrite filter_is_open.
    rewrite (recount_fmap defect_row_dict "severity" DefectRow.severity)
      by reflexivity.
    cbn [mbind option_bind]. unfold get_stats. do 2 f_equal.
    - apply group_count_perm. apply order_by_desc_perm.
    - apply group_count_perm. apply filter_perm. apply order_by_desc_perm. }
  rewrite exported_stats_export_json. split; [exact H|reflexivity].
Qed.

(** * Further properties of the store *)

(** ** Listings of defects *)

Lemma In_order_by_desc {R} (key : R -> string) (l : list R) (r : R) :
  In r (order_by_desc key l) <-> In r l.
Proof.
  split; apply Permutation_in; [|symmetry]; apply order_by_desc_perm.
Qed.

Lemma In_select_where {R} (col : R -> string) (v : string) (rs : list R) (r : R) :
  v <> "" -> In r (select_where col (Some v) rs) <-> In r rs /\ col r = v.
Proof.
  intros Hv. rewrite select_where_nonempty by exact Hv.
  rewrite List.filter_In, String.eqb_eq. reflexivity.
Qed.

(** X1: [list_defects] without an argument returns every row of the defects
    table, by [created_at] descending; with a status other than the empty
    string it returns exactly the rows of that status, in the order they
    have in the full listing, and the empty list when no row has it. *)
Theorem list_defects_spec (db : QualityControlDB) (status : string) :
  status <> "" ->
  let all := list_defects db None in
  let matching := list_defects db (Some status) in
  Permutation all (rows (defects db)) /\
  StronglySorted (desc DefectRow.created_at) all /\
  matching = List.filter (fun r => String.eqb (DefectRow.status r) status) all /\
  StronglySorted (desc DefectRow.created_at) matching /\
  (forall r, In r matching <-> In r (rows (defects db)) /\ DefectRow.status r = status) /\
  ((forall r, In r (rows (defects db)) -> DefectRow.status r <> status) -> matching = []).
Proof.
  intros Hs all matching.
  assert (Hin : forall r, In r matching <->
            In r (rows (defects db)) /\ DefectRow.status r = status).
  { intros r. unfold matching, list_defects.
    rewrite In_order_by_desc. now apply In_select_where. }
  split; [apply order_by_desc_perm|].
  split; [apply order_by_desc_sorted|].
  split.
  { unfold matching, all, list_defects.
    rewrite select_where_nonempty by exact Hs.
    symmetry. apply filter_order_by_desc. }
  split; [apply order_by_desc_sorted|].
  split; [exact Hin|].
  intros Hnone. destruct matching as [|r l] eqn:E; [reflexivity|].
  exfalso. destruct (proj1 (Hin r) (or_introl eq_refl)) as [Hr Hst].
  exact (Hnone r Hr Hst).
Qed.

Lemma list_defects_spec_witness :
  let db := fst (run empty_db
             [AddDefect (Defect.mk None "crash on save" "" "high" "general" "open" ""
                           "2026-11-03T09:00:00" None);
              AddDefect (Defect.mk None "typo" "" "low" "docs" "open" ""
                           "2026-11-03T09:05:00" None);
              ResolveDefect "2026-11-03T10:00:00" 1]) in
  list_defects db (Some "open") =
    List.filter (fun r => String.eqb (DefectRow.status r) "open") (list_defects db None) /\
  length (list_defects db (Some "open")) = 1%nat.
Proof.
  intros db.
  destruct (list_defects_spec db "open" ltac:(discriminate)) as (_ & _ & H & _).
  split; [exact H|reflexivity].
Defined.

(** ** Resolving a defect that is not there *)

(** X2: [resolve_defect] on an id that matches no defect row leaves the
    whole database as it was; it returns false when the id is in the signed
    64-bit range, and raises [OverflowError] when it is not. *)
Theorem resolve_defect_not_found
  (db : QualityControlDB) (now : string) (defect_id : Z) :
  ~ In defect_id (defect_row_ids db) ->
  resolve_defect db now defect_id =
  (db, if int64 defect_id then Returned false else Raised OverflowError).
Proof.
  intros Hn. destruct (int64 defect_id) eqn:Hb.
  - rewrite resolve_defect_bound by exact Hb.
    rewrite update_where_miss by exact Hn.
    destruct db as [c [rs s]]. reflexivity.
  - now apply resolve_defect_unbound.
Qed.

Lemma resolve_defect_not_found_witness :
  let db := fst (add_defect empty_db
                   (Defect.mk None "crash on save" "" "high" "general" "open" ""
                      "2026-11-03T09:00:00" None)) in
  resolve_defect db "2026-11-03T10:00:00" 2 = (db, Returned false) /\
  resolve_defect db "2026-11-03T10:00:00" (-9223372036854775809)
    = (db, Raised OverflowError).
Proof.
  intros db. split.
  - apply (resolve_defect_not_found db "2026-11-03T10:00:00" 2).
    vm_compute. intros [H|[]]. discriminate H.
  - apply (resolve_defect_not_found db "2026-11-03T10:00:00" (-9223372036854775809)).
    vm_compute. intros [H|[]]. discriminate H.
Defined.

(** ** Adding rows *)

Lemma max_rowid_nonneg {R} (rid : R -> Z) (rs : list R) : 0 <= max_rowid rid rs.
Proof. induction rs as [|r rs IH]; simpl; lia. Qed.

Lemma insert_row_fresh {R} (rid : R -> Z) (mk : Z -> R) (t : table R) :
  (forall n, rid (mk n) = n) ->
  let '(t', n) := insert_row rid mk t in
  0 < n /\ (forall m, In m (map rid (rows t)) -> m < n) /\
  rows t' = (rows t ++ [mk n])%list.
Proof.
  intros Hmk. pose proof (insert_row_ids rid mk t Hmk) as H.
  unfold insert_row in *. simpl in *. destruct H as (Hn & _ & _).
  split; [|split; [|reflexivity]].
  - unfold next_rowid. pose proof (max_rowid_nonneg rid (rows t)). lia.
  - intros m Hm. apply ids_below_high_water in Hm. lia.
Qed.

Lemma select_where_snoc {R} (col : R -> string) (v : string) (rs : list R) (r : R) :
  v <> "" ->
  select_where col (Some v) (rs ++ [r]) =
  (select_where col (Some v) rs ++ if String.eqb (col r) v then [r] else [])%list.
Proof.
  intros Hv. rewrite !select_where_nonempty by exact Hv.
  rewrite List.filter_app. simpl. now destruct (String.eqb (col r) v).
Qed.

Lemma order_by_desc_snoc {R} (key : R -> string) (l : list R) (r : R) :
  Permutation (order_by_desc key (l ++ [r])) (r :: order_by_desc key l).
Proof.
  rewrite !order_by_desc_perm. symmetry. apply Permutation_cons_append.
Qed.

(** X3: [add_checklist_item] returns a positive id larger than every id of
    the table; afterwards the listings hold the earlier rows and the new row
    (the returned id with the item's columns), the latter under a category
    filter only when the category is the item's; the defects table is
    untouched, and the [id] field of the item plays no part. *)
Theorem add_checklist_item_listed (db : QualityControlDB) (item : ChecklistItem.t) :
  let '(db', rid) := add_checklist_item db item in
  0 < rid /\
  (forall n, In n (checklist_ids db) -> n < rid) /\
  Permutation (list_checklist_items db' None)
    (checklist_row rid item :: list_checklist_items db None) /\
  (forall c, c <> "" ->
     Permutation (list_checklist_items db' (Some c))
       (if String.eqb (ChecklistItem.category item) c
        then checklist_row rid item :: list_checklist_items db (Some c)
        else list_checklist_items db (Some c))) /\
  defects db' = defects db /\
  (forall i,
     add_checklist_item db
       (ChecklistItem.mk i (ChecklistItem.title item) (ChecklistItem.category item)
          (ChecklistItem.severity item) (ChecklistItem.status item)
          (ChecklistItem.notes item) (ChecklistItem.created_at item)
          (ChecklistItem.updated_at item)) = (db', rid)).
Proof.
  pose proof (insert_row_fresh ChecklistRow.id (fun n => checklist_row n item)
                (checklist_items db) (fun _ => eq_refl)) as H.
  unfold add_checklist_item.
  destruct (insert_row ChecklistRow.id _ (checklist_items db)) as [t rid] eqn:E.
  destruct H as (Hpos & Hnew & Hrows).
  split; [exact Hpos|]. split; [exact Hnew|].
  split; [|split; [|split; [reflexivity|]]].
  - unfold list_checklist_items; simpl. rewrite Hrows. apply order_by_desc_snoc.
  - intros c Hc. unfold list_checklist_items. cbn [checklist_items]. rewrite Hrows.
    rewrite select_where_snoc by exact Hc. cbn [ChecklistRow.category checklist_row].
    destruct (String.eqb (ChecklistItem.category item) c).
    + apply order_by_desc_snoc.
    + now rewrite List.app_nil_r.
  - intros i.
    transitivity (let '(t', n) := insert_row ChecklistRow.id
                                    (fun n => checklist_row n item) (checklist_items db) in
                  (DB t' (defects db), n)); [reflexivity|].
    now rewrite E.
Qed.

(** X4: [add_defect] returns a positive id larger than every id of the
    table; afterwards the listings hold the earlier rows and the new row,
    the latter under a status filter only when the status is the defect's;
    the checklist table is untouched, and the [id] field of the defect plays
    no part. *)
Theorem add_defect_listed (db : QualityControlDB) (defect : Defect.t) :
  let '(db', rid) := add_defect db defect in
  0 < rid /\
  (forall n, In n (defect_row_ids db) -> n < rid) /\
  Permutation (list_defects db' None) (defect_row rid defect :: list_defects db None) /\
  (forall s, s <> "" ->
     Permutation (list_defects db' (Some s))
       (if String.eqb (Defect.status defect) s
        then defect_row rid defect :: list_defects db (Some s)
        else list_defects db (Some s))) /\
  checklist_items db' = checklist_items db /\
  (forall i,
     add_defect db
       (Defect.mk i (Defect.title defect) (Defect.description defect)
          (Defect.severity defect) (Defect.component defect) (Defect.status defect)
          (Defect.assignee defect) (Defect.created_at defect)
          (Defect.resolved_at defect)) = (db', rid)).
Proof.
  pose proof (insert_row_fresh DefectRow.id (fun n => defect_row n defect)
                (defects db) (fun _ => eq_refl)) as H.
  unfold add_defect.
  destruct (insert_row DefectRow.id _ (defects db)) as [t rid] eqn:E.
  destruct H as (Hpos & Hnew & Hrows).
  split; [exact Hpos|]. split; [exact Hnew|].
  split; [|split; [|split; [reflexivity|]]].
  - unfold list_defects; simpl. rewrite Hrows. apply order_by_desc_snoc.
  - intros s Hs. unfold list_defects. cbn [defects]. rewrite Hrows.
    rewrite select_where_snoc by exact Hs. cbn [DefectRow.status defect_row].
    destruct (String.eqb (Defect.status defect) s).
    + apply order_by_desc_snoc.
    + now rewrite List.app_nil_r.
  - intros i.
    transitivity (let '(t', n) := insert_row DefectRow.id
                                    (fun n => defect_row n defect) (defects db) in
                  (DB (checklist_items db) t', n)); [reflexivity|].
    now rewrite E.
Qed.

(** ** The dashboard after a write *)

Lemma sum_values_insert (m : gmap string nat) (k : string) (v : nat) :
  (sum_values (<[k := v]> m) + default 0 (m !! k) = v + sum_values m)%nat.
Proof.
  unfold sum_values.
  assert (Hcomm : forall (m' : gmap string nat) (j1 j2 : string) (z1 z2 y : nat),
            j1 <> j2 -> m' !! j1 = Some z1 -> m' !! j2 = Some z2 ->
            (z1 + (z2 + y) = z2 + (z1 + y))%nat) by (intros; lia).
  destruct (m !! k) as [old|] eqn:E; simpl.
  - rewrite <- (insert_delete_eq m k v).
    rewrite map_fold_insert_L; [|apply Hcomm|apply lookup_delete_eq].
    rewrite (map_fold_delete_L _ _ k old m); [lia|apply Hcomm|exact E].
  - rewrite map_fold_insert_L; [lia|apply Hcomm|exact E].
Qed.

Lemma sum_values_group_count {R} (key : R -> string) (rs : list R) :
  sum_values (group_count key rs) = length rs.
Proof.
  induction rs as [|r rs IH]; simpl; [reflexivity|].
  pose proof (sum_values_insert (group_count key rs) (key r)
                (S (default 0%nat (group_count key rs !! key r)))) as H.
  lia.
Qed.

Lemma group_count_snoc {R} (key : R -> string) (rs : list R) (r : R) :
  group_count key (rs ++ [r]) =
  <[key r := S (default 0%nat (group_count key rs !! key r))]> (group_count key rs).
Proof.
  rewrite (group_count_perm key (rs ++ [r]) (r :: rs)); [reflexivity|].
  symmetry. apply Permutation_cons_append.
Qed.

Lemma default_bucket (n : nat) : default 0%nat (bucket n) = n.
Proof. now destruct n. Qed.

(** X5: the number [cmd_status] prints as the total of open defects is the
    number of defect rows whose status is "open", which is the length of
    the listing filtered by "open"; likewise the checklist counts of
    [get_stats] add up to the number of checklist rows. *)
Theorem dashboard_totals (db : QualityControlDB) :
  cmd_status_total db = count_where is_open_row (rows (defects db)) /\
  cmd_status_total db = length (list_defects db (Some "open")) /\
  sum_values (checklist (get_stats db)) = length (rows (checklist_items db)) /\
  sum_values (checklist (get_stats db)) = length (list_checklist_items db None).
Proof.
  assert (H1 : cmd_status_total db = count_where is_open_row (rows (defects db))).
  { unfold cmd_status_total, get_stats; simpl. apply sum_values_group_count. }
  assert (H2 : sum_values (checklist (get_stats db)) = length (rows (checklist_items db))).
  { unfold get_stats; simpl. apply sum_values_group_count. }
  split; [exact H1|]. split; [|split; [exact H2|]].
  - rewrite H1. unfold list_defects.
    rewrite (Permutation_length (order_by_desc_perm _ _)).
    now rewrite select_where_nonempty by discriminate.
  - rewrite H2. unfold list_checklist_items.
    now rewrite (Permutation_length (order_by_desc_perm _ _)).
Qed.

(** X6: after [add_checklist_item] the checklist count of the item's status
    is one more than before (the key appears if it was absent), every other
    checklist count and the open-defect counts are as before. *)
Theorem get_stats_after_add_checklist_item
  (db : QualityControlDB) (item : ChecklistItem.t) :
  let '(db', _) := add_checklist_item db item in
  let st := ChecklistItem.status item in
  checklist (get_stats db') =
    <[st := S (default 0%nat (checklist (get_stats db) !! st))]> (checklist (get_stats db)) /\
  (forall s, s <> st -> checklist (get_stats db') !! s = checklist (get_stats db) !! s) /\
  open_defects_by_severity (get_stats db') = open_defects_by_severity (get_stats db).
Proof.
  unfold add_checklist_item, insert_row, get_stats; simpl.
  rewrite group_count_snoc. simpl.
  split; [reflexivity|]. split; [|reflexivity].
  intros s Hs. now rewrite lookup_insert_ne.
Qed.

(** X7: after [add_defect] of a defect whose status is "open" the open count
    of its severity and the dashboard total are one more than before; a
    defect added with any other status changes neither; the checklist
    counts are as before in both cases. *)
Theorem get_stats_after_add_defect (db : QualityControlDB) (defect : Defect.t) :
  let '(db', _) := add_defect db defect in
  let sev := Defect.severity defect in
  let before := open_defects_by_severity (get_stats db) in
  open_defects_by_severity (get_stats db') =
    (if String.eqb (Defect.status defect) "open"
     then <[sev := S (default 0%nat (before !! sev))]> before
     else before) /\
  cmd_status_total db' =
    (cmd_status_total db + if String.eqb (Defect.status defect) "open" then 1 else 0)%nat /\
  checklist (get_stats db') = checklist (get_stats db).
Proof.
  unfold add_defect, insert_row, cmd_status_total, get_stats; simpl.
  rewrite !sum_values_group_count. rewrite List.filter_app; simpl.
  destruct (String.eqb (Defect.status defect) "open").
  - rewrite group_count_snoc, List.length_app; simpl.
    split; [reflexivity|]. split; [lia|reflexivity].
  - rewrite List.app_nil_r. split; [reflexivity|]. split; [lia|reflexivity].
Qed.

Lemma count_where_update {R} (rid : R -> Z) (k : Z) (set : R -> R) (p : R -> bool)
  (rs : list R) (r0 : R) :
  NoDup (map rid rs) -> In r0 rs -> rid r0 = k ->
  (count_where p (fst (update_where rid k set rs)) + (if p r0 then 1 else 0) =
   count_where p rs + (if p (set r0) then 1 else 0))%nat.
Proof.
  unfold count_where, update_where; simpl.
  induction rs as [|r rs IH]; simpl; [tauto|].
  intros Hnd Hin Hk. apply NoDup_cons in Hnd. destruct Hnd as [Hfresh Hnd].
  assert (Hfresh' : ~ In (rid r) (map rid rs)).
  { intros H. apply Hfresh. now apply list_elem_of_In. }
  destruct Hin as [->|Hin].
  - rewrite Hk, Z.eqb_refl.
    pose proof (update_where_miss rid k set rs) as Hmiss.
    unfold update_where in Hmiss. rewrite Hk in Hfresh'.
    specialize (Hmiss Hfresh'). inversion Hmiss as [[Hmap Hlen]]. rewrite !Hmap.
    destruct (p r0), (p (set r0)); simpl; lia.
  - destruct (Z.eqb_spec (rid r) k) as [E|E].
    + exfalso. apply Hfresh'. rewrite E, <- Hk. now apply List.in_map.
    + specialize (IH Hnd Hin Hk). destruct (p r); simpl; lia.
Qed.

Lemma open_count_lookup (db : QualityControlDB) (sev : string) :
  open_defects_by_severity (get_stats db) !! sev =
  bucket (count_where
            (fun r => String.eqb (DefectRow.status r) "open"
                      && String.eqb (DefectRow.severity r) sev)
            (rows (defects db))).
Proof.
  unfold get_stats; simpl.
  rewrite group_count_lookup. f_equal. apply count_where_filter.
Qed.

(** X8: with unique ids (each a rowid, a signed 64-bit integer), resolving
    an existing defect lowers the open count of its severity, and the
    dashboard total, by one when the defect was open, and changes no count
    when it was not; the open counts of the other severities and the
    checklist counts stay as they were. *)
Theorem get_stats_after_resolve_defect
  (db : QualityControlDB) (now : string) (defect_id : Z) (r0 : DefectRow.t) :
  rowids_are_int64 db ->
  NoDup (defect_row_ids db) ->
  In r0 (rows (defects db)) -> DefectRow.id r0 = defect_id ->
  let db' := fst (resolve_defect db now defect_id) in
  let was_open sev := is_open_row r0 && String.eqb (DefectRow.severity r0) sev in
  (forall sev,
     (default 0 (open_defects_by_severity (get_stats db') !! sev)
      + (if was_open sev then 1 else 0) =
      default 0 (open_defects_by_severity (get_stats db) !! sev))%nat) /\
  (cmd_status_total db' + (if is_open_row r0 then 1 else 0) = cmd_status_total db)%nat /\
  checklist (get_stats db') = checklist (get_stats db).
Proof.
  intros Hrow Hnd Hin Hid db' was_open. subst db'.
  assert (Hb : int64 defect_id = true).
  { apply (stored_defect_id_int64 db); [exact Hrow|].
    rewrite <- Hid. now apply List.in_map. }
  rewrite resolve_defect_bound by exact Hb.
  split; [|split; [|reflexivity]].
  - intros sev.
    rewrite !open_count_lookup, !default_bucket.
    pose proof (count_where_update DefectRow.id defect_id (set_resolved now)
                  (fun r => String.eqb (DefectRow.status r) "open"
                            && String.eqb (DefectRow.severity r) sev)
                  (rows (defects db)) r0 Hnd Hin Hid) as Hc.
    simpl in Hc. unfold was_open, is_open_row.
    simpl. lia.
  - unfold cmd_status_total, get_stats; simpl.
    rewrite !sum_values_group_count.
    pose proof (count_where_update DefectRow.id defect_id (set_resolved now)
                  is_open_row (rows (defects db)) r0 Hnd Hin Hid) as Hc.
    simpl in Hc. unfold count_where, is_open_row in *. lia.
Qed.

Lemma get_stats_after_resolve_defect_witness :
  let db := fst (run empty_db
             [AddDefect (Defect.mk None "crash on save" "" "high" "general" "open" ""
                           "2026-11-03T09:00:00" None);
              AddDefect (Defect.mk None "slow start" "" "high" "general" "open" ""
                           "2026-11-03T09:05:00" None)]) in
  let db' := fst (resolve_defect db "2026-11-03T10:00:00" 1) in
  (cmd_status_total db' + 1 = cmd_status_total db)%nat /\
  checklist (get_stats db') = checklist (get_stats db).
Proof.
  intros db.
  assert (Hrow : rowids_are_int64 db) by (apply rowids_are_int64_check; reflexivity).
  assert (Hnd : NoDup (defect_row_ids db)).
  { apply (bool_decide_unpack _). vm_compute. exact I. }
  destruct (get_stats_after_resolve_defect db "2026-11-03T10:00:00" 1
              (defect_row 1 (Defect.mk None "crash on save" "" "high" "general" "open" ""
                               "2026-11-03T09:00:00" None))
              Hrow Hnd (or_introl eq_refl) eq_refl) as (_ & Htot & Hcl).
  split; [exact Htot|exact Hcl].
Defined.

Lemma checklist_count_lookup (db : QualityControlDB) (s : string) :
  checklist (get_stats db) !! s =
  bucket (count_where (fun r => String.eqb (ChecklistRow.status r) s)
            (rows (checklist_items db))).
Proof. apply group_count_lookup. Qed.

(** X9: with unique ids (each a rowid, a signed 64-bit integer), a status
    update of an existing item moves one unit of the checklist counts from
    the item's old status to the new one (no count changes when the two are
    the same); the counts of the other statuses, their sum and the
    open-defect counts stay as they were. *)
Theorem get_stats_after_update_checklist_status
  (db : QualityControlDB) (now : string) (item_id : Z) (status notes : string)
  (r0 : ChecklistRow.t) :
  rowids_are_int64 db ->
  NoDup (checklist_ids db) ->
  In r0 (rows (checklist_items db)) -> ChecklistRow.id r0 = item_id ->
  let db' := fst (update_checklist_status db now item_id status notes) in
  (forall s,
     (default 0 (checklist (get_stats db') !! s)
      + (if String.eqb (ChecklistRow.status r0) s then 1 else 0) =
      default 0 (checklist (get_stats db) !! s)
      + (if String.eqb status s then 1 else 0))%nat) /\
  sum_values (checklist (get_stats db')) = sum_values (checklist (get_stats db)) /\
  open_defects_by_severity (get_stats db') = open_defects_by_severity (get_stats db).
Proof.
  intros Hrow Hnd Hin Hid db'. subst db'.
  assert (Hb : int64 item_id = true).
  { apply (stored_item_id_int64 db); [exact Hrow|].
    rewrite <- Hid. now apply List.in_map. }
  rewrite update_checklist_status_bound by exact Hb.
  split; [|split; [|reflexivity]].
  - intros s. rewrite !checklist_count_lookup, !default_bucket.
    pose proof (count_where_update ChecklistRow.id item_id
                  (set_checklist_status status notes now)
                  (fun r => String.eqb (ChecklistRow.status r) s)
                  (rows (checklist_items db)) r0 Hnd Hin Hid) as Hc.
    simpl in Hc. simpl. exact Hc.
  - unfold get_stats; simpl.
    rewrite !sum_values_group_count. apply List.length_map.
Qed.

Lemma get_stats_after_update_checklist_status_witness :
  let db := fst (run empty_db
             [AddItem (ChecklistItem.mk None "check login" "general" "medium" "pending" ""
                         "2026-11-03T09:00:00" "2026-11-03T09:00:00");
              AddItem (ChecklistItem.mk None "check backup" "ops" "high" "pending" ""
                         "2026-11-03T09:05:00" "2026-11-03T09:05:00")]) in
  let db' := fst (update_checklist_status db "2026-11-03T10:00:00" 2 "passed" "ok") in
  checklist (get_stats db) !! "pending" = Some 2%nat /\
  (default 0 (checklist (get_stats db') !! "pending") + 1 = 2 + 0)%nat /\
  (default 0 (checklist (get_stats db') !! "passed") + 0 = 0 + 1)%nat.
Proof.
  intros db.
  assert (Hrow : rowids_are_int64 db) by (apply rowids_are_int64_check; reflexivity).
  assert (Hnd : NoDup (checklist_ids db)).
  { apply (bool_decide_unpack _). vm_compute. exact I. }
  destruct (get_stats_after_update_checklist_status db "2026-11-03T10:00:00" 2
              "passed" "ok"
              (checklist_row 2 (ChecklistItem.mk None "check backup" "ops" "high" "pending" ""
                                  "2026-11-03T09:05:00" "2026-11-03T09:05:00"))
              Hrow Hnd (or_intror (or_introl eq_refl)) eq_refl) as (Hmove & _ & _).
  split; [reflexivity|]. split; [exact (Hmove "pending")|exact (Hmove "passed")].
Defined.

(** ** Writes that follow one another *)

Lemma update_where_twice {R} (rid : R -> Z) (k : Z) (set1 set2 : R -> R) (rs : list R) :
  (forall r, rid (set1 r) = rid r) ->
  (forall r, set2 (set1 r) = set2 r) ->
  update_where rid k set2 (fst (update_where rid k set1 rs)) = update_where rid k set2 rs.
Proof.
  intros Hid Hset. unfold update_where; simpl.
  induction rs as [|r rs IH]; simpl; [reflexivity|].
  inversion IH as [[Hmap Hlen]]. rewrite !Hmap.
  destruct (Z.eqb_spec (rid r) k) as [E|E].
  - rewrite Hid, E, Z.eqb_refl, Hset. simpl. now rewrite Hlen.
  - destruct (Z.eqb_spec (rid r) k); [contradiction|]. now rewrite Hlen.
Qed.

(** X10: the last write wins.  A status update that follows another one on
    the same id leaves the database, and returns the value, that it alone
    would have; so does a resolution that follows another one: nothing of
    the first status, notes or timestamp survives. *)
Theorem last_write_wins (db : QualityControlDB) :
  (forall now1 now2 item_id status1 notes1 status2 notes2,
     update_checklist_status
       (fst (update_checklist_status db now1 item_id status1 notes1))
       now2 item_id status2 notes2 =
     update_checklist_status db now2 item_id status2 notes2) /\
  (forall now1 now2 defect_id,
     resolve_defect (fst (resolve_defect db now1 defect_id)) now2 defect_id =
     resolve_defect db now2 defect_id).
Proof.
  split.
  - intros now1 now2 item_id status1 notes1 status2 notes2.
    destruct (int64 item_id) eqn:Hb.
    + pose proof (update_where_twice ChecklistRow.id item_id
                    (set_checklist_status status1 notes1 now1)
                    (set_checklist_status status2 notes2 now2)
                    (rows (checklist_items db)) (fun _ => eq_refl) (fun _ => eq_refl)) as H.
      rewrite (update_checklist_status_bound db now1) by exact Hb.
      rewrite !update_checklist_status_bound by exact Hb.
      cbn [fst snd checklist_items defects rows seq]. now rewrite H.
    + rewrite (update_checklist_status_unbound db now1) by exact Hb.
      reflexivity.
  - intros now1 now2 defect_id.
    destruct (int64 defect_id) eqn:Hb.
    + pose proof (update_where_twice DefectRow.id defect_id
                    (set_resolved now1) (set_resolved now2)
                    (rows (defects db)) (fun _ => eq_refl) (fun _ => eq_refl)) as H.
      rewrite (resolve_defect_bound db now1) by exact Hb.
      rewrite !resolve_defect_bound by exact Hb.
      cbn [fst snd checklist_items defects rows seq]. now rewrite H.
    + rewrite (resolve_defect_unbound db now1) by exact Hb.
      reflexivity.
Qed.

(** ** Listings after a write *)

Lemma insert_desc_map {R} (key : R -> string) (f : R -> R) (x : R) (l : list R) :
  (forall r, key (f r) = key r) ->
  insert_desc key (f x) (map f l) = map f (insert_desc key x l).
Proof.
  intros Hkey. induction l as [|y l IH]; simpl; [reflexivity|].
  rewrite !Hkey. destruct (String.ltb (key x) (key y)); simpl; [now rewrite IH|reflexivity].
Qed.

Lemma order_by_desc_map {R} (key : R -> string) (f : R -> R) (l : list R) :
  (forall r, key (f r) = key r) ->
  order_by_desc key (map f l) = map f (order_by_desc key l).
Proof.
  intros Hkey. induction l as [|x l IH]; simpl; [reflexivity|].
  fold (order_by_desc key (map f l)). fold (order_by_desc key l).
  rewrite IH. now apply insert_desc_map.
Qed.

Lemma select_where_map {R} (col : R -> string) (f : R -> R) (arg : option string)
  (rs : list R) :
  (forall r, col (f r) = col r) ->
  select_where col arg (map f rs) = map f (select_where col arg rs).
Proof.
  intros Hcol. unfold select_where. destruct arg as [v|]; [|reflexivity].
  destruct (truthy (Some v)); [|reflexivity].
  induction rs as [|r rs IH]; simpl; [reflexivity|].
  rewrite Hcol. destruct (String.eqb (col r) v); simpl; now rewrite IH.
Qed.

Lemma In_select_where_table {R} (col : R -> string) (arg : option string)
  (rs : list R) (r : R) :
  In r (select_where col arg rs) -> In r rs.
Proof.
  unfold select_where. destruct arg as [v|]; [|tauto].
  destruct (truthy (Some v)); [|tauto].
  rewrite List.filter_In. tauto.
Qed.

Lemma map_rewritten_other {R} (rid : R -> Z) (k : Z) (set : R -> R) (l : list R) :
  (forall r, In r l -> rid r <> k) -> map (rewritten rid k set) l = l.
Proof.
  intros H. induction l as [|r l IH]; simpl; [reflexivity|].
  rewrite IH by (intros r' Hr'; apply H; now right).
  unfold rewritten. destruct (Z.eqb_spec (rid r) k) as [E|_]; [|reflexivity].
  exfalso. exact (H r (or_introl eq_refl) E).
Qed.

(** X11: on a database whose ids are rowids (signed 64-bit integers), a
    status update never reorders a listing or moves a row in or out of a
    category: for every category argument, [list_checklist_items] after the
    update is the listing before it with the row of that id rewritten in
    place.  The same holds for [resolve_defect] and the unfiltered
    [list_defects]. *)
Theorem listings_keep_their_order (db : QualityControlDB) :
  rowids_are_int64 db ->
  (forall now item_id status notes category,
     list_checklist_items
       (fst (update_checklist_status db now item_id status notes)) category =
     map (rewritten ChecklistRow.id item_id (set_checklist_status status notes now))
       (list_checklist_items db category)) /\
  (forall now defect_id,
     list_defects (fst (resolve_defect db now defect_id)) None =
     map (rewritten DefectRow.id defect_id (set_resolved now)) (list_defects db None)).
Proof.
  intros Hrow. split.
  - intros now item_id status notes category.
    destruct (int64 item_id) eqn:Hb.
    + rewrite update_checklist_status_bound by exact Hb.
      unfold list_checklist_items, update_where; simpl.
      change (fun r => if Z.eqb (ChecklistRow.id r) item_id
                       then set_checklist_status status notes now r else r)
        with (rewritten ChecklistRow.id item_id (set_checklist_status status notes now)).
      assert (Hsame : forall (col : ChecklistRow.t -> string),
                (forall r, col (set_checklist_status status notes now r) = col r) ->
                forall r, col (rewritten ChecklistRow.id item_id
                                 (set_checklist_status status notes now) r) = col r).
      { intros col Hcol r. unfold rewritten.
        destruct (Z.eqb (ChecklistRow.id r) item_id); [apply Hcol|reflexivity]. }
      rewrite select_where_map by (apply Hsame; reflexivity).
      apply order_by_desc_map. apply Hsame. reflexivity.
    + rewrite update_checklist_status_unbound by exact Hb. simpl.
      symmetry. apply map_rewritten_other. intros r Hr E.
      unfold list_checklist_items in Hr. apply In_order_by_desc in Hr.
      apply In_select_where_table in Hr.
      assert (Hin : In item_id (checklist_ids db)).
      { rewrite <- E. now apply List.in_map. }
      rewrite (stored_item_id_int64 db item_id Hrow Hin) in Hb. discriminate Hb.
  - intros now defect_id.
    destruct (int64 defect_id) eqn:Hb.
    + rewrite resolve_defect_bound by exact Hb.
      unfold list_defects, update_where; simpl.
      change (fun r => if Z.eqb (DefectRow.id r) defect_id then set_resolved now r else r)
        with (rewritten DefectRow.id defect_id (set_resolved now)).
      apply order_by_desc_map. intros r. unfold rewritten.
      now destruct (Z.eqb (DefectRow.id r) defect_id).
    + rewrite resolve_defect_unbound by exact Hb. simpl.
      symmetry. apply map_rewritten_other. intros r Hr E.
      apply listed_defect_id in Hr. rewrite E in Hr.
      rewrite (stored_defect_id_int64 db defect_id Hrow Hr) in Hb. discriminate Hb.
Qed.

Lemma listings_keep_their_order_witness :
  let db := fst (run empty_db
             [AddItem (ChecklistItem.mk None "check login" "ui" "medium" "pending" ""
                         "2026-11-03T09:00:00" "2026-11-03T09:00:00");
              AddItem (ChecklistItem.mk None "check backup" "ops" "high" "pending" ""
                         "2026-11-03T09:05:00" "2026-11-03T09:05:00")]) in
  list_checklist_items
    (fst (update_checklist_status db "2026-11-03T10:00:00" 1 "passed" "ok")) (Some "ui") =
  map (rewritten ChecklistRow.id 1 (set_checklist_status "passed" "ok" "2026-11-03T10:00:00"))
    (list_checklist_items db (Some "ui")).
Proof.
  intros db.
  assert (Hrow : rowids_are_int64 db) by (apply rowids_are_int64_check; reflexivity).
  exact (proj1 (listings_keep_their_order db Hrow)
           "2026-11-03T10:00:00" 1 "passed" "ok" (Some "ui")).
Defined.

(** X12: on a database whose ids are rowids (signed 64-bit integers), after
    [resolve_defect] the listing filtered by "open" holds exactly the rows
    it held before except the one of that id, and, when the id exists, the
    listing filtered by "resolved" holds a row of that id. *)
Theorem resolved_defect_leaves_open_listing
  (db : QualityControlDB) (now : string) (defect_id : Z) :
  rowids_are_int64 db ->
  let db' := fst (resolve_defect db now defect_id) in
  (forall r, In r (list_defects db' (Some "open")) <->
     In r (list_defects db (Some "open")) /\ DefectRow.id r <> defect_id) /\
  (In defect_id (defect_row_ids db) ->
   exists r, In r (list_defects db' (Some "resolved")) /\ DefectRow.id r = defect_id /\
             DefectRow.resolved_at r = Some now).
Proof.
  intros Hrow db'. subst db'.
  assert (Hlist : forall d s r, s <> "" ->
            In r (list_defects d (Some s)) <->
            In r (rows (defects d)) /\ DefectRow.status r = s).
  { intros d s r Hs. unfold list_defects. rewrite In_order_by_desc.
    now apply In_select_where. }
  destruct (int64 defect_id) eqn:Hb.
  - rewrite resolve_defect_bound by exact Hb. split.
    + intros r. rewrite !Hlist by discriminate.
      unfold update_where; simpl. rewrite List.in_map_iff. split.
      * intros [(r0 & Hr0 & Hin) Hst].
        destruct (Z.eqb_spec (DefectRow.id r0) defect_id) as [E|E]; subst r.
        -- discriminate Hst.
        -- tauto.
      * intros [[Hin Hst] Hid]. split; [|exact Hst].
        exists r. split; [|exact Hin].
        now destruct (Z.eqb_spec (DefectRow.id r) defect_id).
    + intros Hin. unfold defect_row_ids in Hin.
      apply List.in_map_iff in Hin. destruct Hin as (r0 & Hid & Hr0).
      exists (set_resolved now r0). split; [|split; [exact Hid|reflexivity]].
      apply Hlist; [discriminate|]. split; [|reflexivity].
      unfold update_where; simpl. apply List.in_map_iff.
      exists r0. split; [|exact Hr0].
      rewrite Hid. now rewrite Z.eqb_refl.
  - rewrite resolve_defect_unbound by exact Hb. simpl. split.
    + intros r. split; [|tauto]. intros Hr. split; [exact Hr|]. intros E.
      apply Hlist in Hr; [|discriminate]. destruct Hr as [Hr _].
      assert (Hin : In defect_id (defect_row_ids db)).
      { rewrite <- E. now apply List.in_map. }
      rewrite (stored_defect_id_int64 db defect_id Hrow Hin) in Hb. discriminate Hb.
    + intros Hin.
      rewrite (stored_defect_id_int64 db defect_id Hrow Hin) in Hb. discriminate Hb.
Qed.

Lemma resolved_defect_leaves_open_listing_witness :
  let db := fst (run empty_db
             [AddDefect (Defect.mk None "crash on save" "" "high" "general" "open" ""
                           "2026-11-03T09:00:00" None);
              AddDefect (Defect.mk None "slow start" "" "low" "general" "open" ""
                           "2026-11-03T09:05:00" None)]) in
  let db' := fst (resolve_defect db "2026-11-03T10:00:00" 1) in
  (forall r, In r (list_defects db' (Some "open")) <->
     In r (list_defects db (Some "open")) /\ DefectRow.id r <> 1) /\
  length (list_defects db' (Some "open")) = 1%nat.
Proof.
  intros db.
  assert (Hrow : rowids_are_int64 db) by (apply rowids_are_int64_check; reflexivity).
  destruct (resolved_defect_leaves_open_listing db "2026-11-03T10:00:00" 1 Hrow)
    as [H _].
  split; [exact H|reflexivity].
Defined.

(** ** Identifiers on a new store *)

Lemma step_high_water (db : QualityControlDB) (o : op) :
  let '(db', r) := step db o in
  hw_items db' = hw_items db + Z.of_nat (length (item_ids [r])) /\
  hw_defects db' = hw_defects db + Z.of_nat (length (defect_ids [r])) /\
  (forall n, In n (item_ids [r]) -> n = hw_items db + 1) /\
  (forall n, In n (defect_ids [r]) -> n = hw_defects db + 1).
Proof.
  destruct o as [item|defect|now item_id status notes|now defect_id].
  - pose proof (insert_row_ids ChecklistRow.id (fun n => checklist_row n item)
                  (checklist_items db) (fun _ => eq_refl)) as H.
    unfold step, add_checklist_item.
    destruct (insert_row _ _ _) as [t n]. destruct H as (Hn & Hw & _).
    unfold hw_items, hw_defects; simpl. rewrite Hw.
    repeat split; try lia; intros m [<-|[]]; lia.
  - pose proof (insert_row_ids DefectRow.id (fun n => defect_row n defect)
                  (defects db) (fun _ => eq_refl)) as H.
    unfold step, add_defect.
    destruct (insert_row _ _ _) as [t n]. destruct H as (Hn & Hw & _).
    unfold hw_items, hw_defects; simpl. rewrite Hw.
    repeat split; try lia; intros m [<-|[]]; lia.
  - pose proof (update_where_ids ChecklistRow.id item_id
                  (set_checklist_status status notes now) (rows (checklist_items db))
                  (fun _ => eq_refl)) as Hids.
    unfold step. destruct (int64 item_id) eqn:Hb.
    + rewrite update_checklist_status_bound by exact Hb.
      unfold hw_items, hw_defects, high_water; simpl in *.
      rewrite (max_rowid_ids ChecklistRow.id (map _ _)), Hids, <- max_rowid_ids.
      repeat split; try lia; intros m [].
    + rewrite update_checklist_status_unbound by exact Hb. simpl.
      repeat split; try lia; intros m [].
  - pose proof (update_where_ids DefectRow.id defect_id
                  (set_resolved now) (rows (defects db)) (fun _ => eq_refl)) as Hids.
    unfold step. destruct (int64 defect_id) eqn:Hb.
    + rewrite resolve_defect_bound by exact Hb.
      unfold hw_items, hw_defects, high_water; simpl in *.
      rewrite (max_rowid_ids DefectRow.id (map _ _)), Hids, <- max_rowid_ids.
      repeat split; try lia; intros m [].
    + rewrite resolve_defect_unbound by exact Hb. simpl.
      repeat split; try lia; intros m [].
Qed.

Lemma int64_bounds (n : Z) : - 2 ^ 63 <= n <= 2 ^ 63 - 1 -> int64 n = true.
Proof.
  intros [H1 H2]. unfold int64. apply andb_true_intro.
  split; apply Z.leb_le; assumption.
Qed.

Lemma high_water_nonneg {R} (rid : R -> Z) (t : table R) : 0 <= high_water rid t.
Proof. unfold high_water. pose proof (max_rowid_nonneg rid (rows t)). lia. Qed.

(** The ids of a new store are in range, and every call keeps them there
    as long as the rowids of the tables are not exhausted (beyond that the
    engine fails with a storage fault). *)
Lemma rowids_are_int64_step (db : QualityControlDB) (o : op) :
  rowids_are_int64 db ->
  hw_items db < 2 ^ 63 - 1 -> hw_defects db < 2 ^ 63 - 1 ->
  rowids_are_int64 (fst (step db o)).
Proof.
  intros [Hi Hd] Hwi Hwd.
  pose proof (step_ids db o) as H1. pose proof (step_high_water db o) as H2.
  destruct (step db o) as [db' r]. simpl.
  destruct H1 as (Hci & Hcd & _). destruct H2 as (_ & _ & Hni & Hnd).
  pose proof (high_water_nonneg ChecklistRow.id (checklist_items db)) as H0i.
  pose proof (high_water_nonneg DefectRow.id (defects db)) as H0d.
  unfold hw_items, hw_defects in *.
  split.
  - rewrite Hci. apply List.Forall_app. split; [exact Hi|].
    apply List.Forall_forall. intros n Hn. rewrite (Hni n Hn).
    apply int64_bounds. lia.
  - rewrite Hcd. apply List.Forall_app. split; [exact Hd|].
    apply List.Forall_forall. intros n Hn. rewrite (Hnd n Hn).
    apply int64_bounds. lia.
Qed.

Lemma rowids_are_int64_empty : rowids_are_int64 empty_db.
Proof. split; constructor. Qed.

Lemma consecutive_app (h : Z) (l1 l2 : list Z) :
  (length l1 <= 1)%nat ->
  (forall n, In n l1 -> n = h + 1) ->
  (forall i n, l2 !! i = Some n -> n = h + Z.of_nat (length l1) + 1 + Z.of_nat i) ->
  forall i n, (l1 ++ l2)%list !! i = Some n -> n = h + 1 + Z.of_nat i.
Proof.
  intros Hlen H1 H2 i n Hi.
  destruct l1 as [|x [|y l1]]; simpl in *; [| |lia].
  - specialize (H2 i n Hi). lia.
  - destruct i as [|i]; simpl in Hi.
    + inversion Hi; subst. rewrite (H1 n) by tauto. lia.
    + specialize (H2 i n Hi). lia.
Qed.

Lemma run_consecutive (db : QualityControlDB) (ops : list op) :
  let '(db', rs) := run db ops in
  hw_items db' = hw_items db + Z.of_nat (length (item_ids rs)) /\
  hw_defects db' = hw_defects db + Z.of_nat (length (defect_ids rs)) /\
  (forall i n, item_ids rs !! i = Some n -> n = hw_items db + 1 + Z.of_nat i) /\
  (forall i n, defect_ids rs !! i = Some n -> n = hw_defects db + 1 + Z.of_nat i).
Proof.
  revert db. induction ops as [|o ops IH]; intros db.
  - simpl. repeat split; try lia; intros i n H; destruct i; discriminate H.
  - simpl. pose proof (step_high_water db o) as Hstep.
    destruct (step db o) as [db1 r]. specialize (IH db1).
    destruct (run db1 ops) as [db2 rs].
    destruct Hstep as (Hi1 & Hd1 & Hn1 & Hm1).
    destruct IH as (Hi2 & Hd2 & Hn2 & Hm2).
    rewrite item_ids_cons, defect_ids_cons, !List.length_app.
    split; [lia|]. split; [lia|]. split.
    + apply consecutive_app; [destruct r; simpl; lia|exact Hn1|].
      intros i n Hi. rewrite (Hn2 i n Hi), Hi1. lia.
    + apply consecutive_app; [destruct r; simpl; lia|exact Hm1|].
      intros i n Hi. rewrite (Hm2 i n Hi), Hd1. lia.
Qed.

(** X13: on a new store, whatever other calls are interleaved, the k-th
    call of [add_checklist_item] returns k and the k-th call of [add_defect]
    returns k: ids start at 1 and have no gaps, separately per table. *)
Theorem new_store_ids_count_from_one (ops : list op) :
  let rs := snd (run empty_db ops) in
  (forall i n, item_ids rs !! i = Some n -> n = Z.of_nat (S i)) /\
  (forall i n, defect_ids rs !! i = Some n -> n = Z.of_nat (S i)).
Proof.
  pose proof (run_consecutive empty_db ops) as H.
  destruct (run empty_db ops) as [db' rs]. simpl.
  destruct H as (_ & _ & Hi & Hd).
  split; intros i n Hn.
  - rewrite (Hi i n Hn). unfold hw_items, high_water; simpl. lia.
  - rewrite (Hd i n Hn). unfold hw_defects, high_water; simpl. lia.
Qed.

(** ** Colours *)

(** X14: [_sev] gives a colour other than the reset code [NC] exactly to
    the four severities the parser accepts, and [_st] exactly to its seven
    statuses, among them the ones the store writes by itself ("pending",
    "open", "resolved"); any other text, which the store accepts as well,
    falls back to [NC]. *)
Theorem colours_default_to_NC (s : string) :
  (_sev s <> NC <-> In s severity_choices) /\
  (_st s <> NC <->
   In s ["passed"; "failed"; "open"; "resolved"; "closed"; "pending"; "in_progress"]).
Proof.
  split.
  - destruct (decide (s = "critical")) as [->|H1]; [split; [simpl; tauto|discriminate]|].
    destruct (decide (s = "high")) as [->|H2]; [split; [simpl; tauto|discriminate]|].
    destruct (decide (s = "medium")) as [->|H3]; [split; [simpl; tauto|discriminate]|].
    destruct (decide (s = "low")) as [->|H4]; [split; [simpl; tauto|discriminate]|].
    unfold _sev. cbn [list_to_map foldr uncurry fst snd].
    rewrite !lookup_insert_ne, lookup_empty by congruence. simpl.
    split; [congruence|]. intros [?|[?|[?|[?|[]]]]]; congruence.
  - destruct (decide (s = "passed")) as [->|H1]; [split; [simpl; tauto|discriminate]|].
    destruct (decide (s = "failed")) as [->|H2]; [split; [simpl; tauto|discriminate]|].
    destruct (decide (s = "open")) as [->|H3]; [split; [simpl; tauto|discriminate]|].
    destruct (decide (s = "resolved")) as [->|H4]; [split; [simpl; tauto|discriminate]|].
    destruct (decide (s = "closed")) as [->|H5]; [split; [simpl; tauto|discriminate]|].
    destruct (decide (s = "pending")) as [->|H6]; [split; [simpl; tauto|discriminate]|].
    destruct (decide (s = "in_progress")) as [->|H7]; [split; [simpl; tauto|discriminate]|].
    unfold _st. cbn [list_to_map foldr uncurry fst snd].
    rewrite !lookup_insert_ne, lookup_empty by congruence. simpl.
    split; [congruence|]. intros [?|[?|[?|[?|[?|[?|[?|[]]]]]]]]; congruence.
Qed.

(** ** The add command *)

(** X15: [cmd_add] with type "checklist" stores one new item, pending, with
    empty notes and the two clock readings as timestamps, leaves the defects
    alone and prints the id the store returned; with any other type it
    stores one new defect, open and without [resolved_at], which the
    listing filtered by "open" shows and the dashboard total counts, leaves
    the checklist alone and prints the returned id. *)
Theorem cmd_add_effect (args : AddArgs.t) (db : QualityControlDB) (now1 now2 : string) :
  let '(db', line) := cmd_add args db now1 now2 in
  if String.eqb (AddArgs.type args) "checklist" then
    exists rid,
      let row := ChecklistRow.mk rid (AddArgs.title args) (AddArgs.category args)
                   (AddArgs.severity args) "pending" "" now1 now2 in
      (forall n, In n (checklist_ids db) -> n < rid) /\
      rows (checklist_items db') = (rows (checklist_items db) ++ [row])%list /\
      In row (list_checklist_items db' None) /\
      defects db' = defects db /\
      cmd_status_total db' = cmd_status_total db /\
      line = GREEN ++ "Added checklist item #" ++ str rid ++ ": "
               ++ AddArgs.title args ++ NC
  else
    exists rid,
      let row := DefectRow.mk rid (AddArgs.title args) (AddArgs.description args)
                   (AddArgs.severity args) (AddArgs.component args) "open"
                   (AddArgs.assignee args) now1 None in
      (forall n, In n (defect_row_ids db) -> n < rid) /\
      rows (defects db') = (rows (defects db) ++ [row])%list /\
      In row (list_defects db' (Some "open")) /\
      checklist_items db' = checklist_items db /\
      cmd_status_total db' = S (cmd_status_total db) /\
      line = RED ++ "Logged defect #" ++ str rid ++ ": " ++ AddArgs.title args ++ NC.
Proof.
  unfold cmd_add.
  destruct (String.eqb (AddArgs.type args) "checklist").
  - pose proof (insert_row_fresh ChecklistRow.id
                  (fun n => checklist_row n
                     (ChecklistItem.mk None (AddArgs.title args) (AddArgs.category args)
                        (AddArgs.severity args) "pending" "" now1 now2))
                  (checklist_items db) (fun _ => eq_refl)) as H.
    unfold add_checklist_item.
    destruct (insert_row ChecklistRow.id _ (checklist_items db)) as [t rid].
    destruct H as (_ & Hnew & Hrows).
    exists rid. cbn zeta.
    split; [exact Hnew|]. split; [exact Hrows|].
    split; [|split; [reflexivity|split; reflexivity]].
    apply In_list_checklist_items; simpl. rewrite Hrows.
    apply List.in_or_app. right. now left.
  - pose proof (insert_row_fresh DefectRow.id
                  (fun n => defect_row n
                     (Defect.mk None (AddArgs.title args) (AddArgs.description args)
                        (AddArgs.severity args) (AddArgs.component args) "open"
                        (AddArgs.assignee args) now1 None))
                  (defects db) (fun _ => eq_refl)) as H.
    unfold add_defect.
    destruct (insert_row DefectRow.id _ (defects db)) as [t rid].
    destruct H as (_ & Hnew & Hrows).
    exists rid. cbn zeta.
    split; [exact Hnew|]. split; [exact Hrows|].
    split; [|split; [reflexivity|split; [|reflexivity]]].
    + unfold list_defects. rewrite In_order_by_desc.
      apply In_select_where; [discriminate|]. simpl. rewrite Hrows.
      split; [|reflexivity]. apply List.in_or_app. right. now left.
    + unfold cmd_status_total, get_stats; simpl.
      rewrite !sum_values_group_count, Hrows, List.filter_app, List.length_app.
      simpl. lia.
Qed.
